(** * MIDI_lib: a shallow embedding of the Standard MIDI File codec

    The development follows the Python sources [midifile.py] (object model
    and serialisation), [midiparser.py] (the decoder),
    [midi_exceptions.py] and the note table of [play.py].  Python integers are unbounded and are modelled
    by [Z]; a [bytes] object is a [list Z] whose elements lie in
    [0, 256); exceptions are values of [exn] carried by [result]; the
    class-level dictionaries of [StatusBytes] are [gmap]s. *)

From stdpp Require Import base numbers list strings gmap.
From stdpp Require Import pretty.

Local Open Scope Z_scope.

(** ** Exceptions ([midi_exceptions.py] and the built-in ones the code can raise) *)

Inductive exn : Type :=
  | MidiError (msg : string)      (* MidiError raised directly *)
  | DataLengthError               (* subclass of MidiError *)
  | StatusError                   (* subclass of MidiError *)
  | ChannelError                  (* subclass of MidiError *)
  | DataError                     (* subclass of MidiError *)
  | ValueError (msg : string)     (* raise ValueError(..), bytes(), max([]) *)
  | StructError                   (* struct.error of pack / unpack *)
  | IndexError                    (* events[0] on an empty list *)
  | OSError.                      (* seek before the start of the file *)

(** [Ok] is a normal return, [Raise] an exception that propagates.
    [OutOfFuel] is produced only by the bounded unrolling of the decoder's
    [while] loop (see [read_events]) and by nothing else. *)
Inductive result (A : Type) : Type :=
  | Ok (a : A)
  | Raise (e : exn)
  | OutOfFuel.
Arguments Ok {A} a.
Arguments Raise {A} e.
Arguments OutOfFuel {A}.

Definition rbind {A B} (r : result A) (k : A -> result B) : result B :=
  match r with
  | Ok a => k a
  | Raise e => Raise e
  | OutOfFuel => OutOfFuel
  end.

Notation "x <- r ;; k" := (rbind r (fun x => k))
  (at level 100, r at next level, right associativity, only parsing).

Definition is_ok {A} (r : result A) : Prop := exists a, r = Ok a.

Fixpoint rmap {A B} (f : A -> result B) (l : list A) : result (list B) :=
  match l with
  | [] => Ok []
  | x :: l' => y <- f x ;; ys <- rmap f l' ;; Ok (y :: ys)
  end.

(** ** Bytes *)

Definition is_byte (b : Z) : Prop := 0 <= b < 256.

(** [bytes(l)] for a list of integers: [ValueError] unless every element
    is in [range(256)]. *)
Definition bytes (l : list Z) : result (list Z) :=
  if bool_decide (Forall is_byte l) then Ok l
  else Raise (ValueError "bytes must be in range(0, 256)").

(** Big-endian field of [k] bytes, as [struct.pack] lays it out. *)
Fixpoint be_bytes (k : nat) (v : Z) : list Z :=
  match k with
  | O => []
  | S k' => be_bytes k' (v / 256) ++ [v mod 256]
  end.

(** [pack('>L', v)] and [pack('>H', v)]: [struct.error] when [v] does not
    fit the field. *)
Definition pack_L (v : Z) : result (list Z) :=
  if bool_decide (0 <= v <= 4294967295) then Ok (be_bytes 4 v) else Raise StructError.

Definition pack_H (v : Z) : result (list Z) :=
  if bool_decide (0 <= v <= 65535) then Ok (be_bytes 2 v) else Raise StructError.

(** [pack('>LHHH', l, a, b, c)] *)
Definition pack_LHHH (l a b c : Z) : result (list Z) :=
  bl <- pack_L l ;; ba <- pack_H a ;; bb <- pack_H b ;; bc <- pack_H c ;;
  Ok (bl ++ ba ++ bb ++ bc).

Definition MThd : list Z := [77; 84; 104; 100].
Definition MTrk : list Z := [77; 84; 114; 107].

(** ** [class StatusBytes] *)

Module StatusBytes.

Definition meta : gmap Z string :=
  list_to_map
    [ (0, "Sequence Number"); (1, "Text"); (2, "Copyright");
      (3, "Sequence / Track Name"); (4, "Instrument Name"); (5, "Lyric");
      (6, "Marker"); (7, "Cue Point"); (8, "Program Name");
      (9, "Device Name"); (32, "MIDI Channel Prefix"); (33, "MIDI Port");
      (47, "End of Track"); (81, "Tempo"); (84, "SMPTE Offset");
      (88, "Time Signature"); (89, "Key Signature");
      (127, "Sequencer Specific Event") ]%string.

Definition sysex : gmap Z string :=
  list_to_map
    [ (240, "Single (complete) SysEx messages");
      (247, "Escape sequences") ]%string.

Definition midi : gmap Z string :=
  list_to_map
    [ (128, "Note off"); (144, "Note on"); (160, "Key pressure");
      (176, "Control change"); (192, "Program change");
      (208, "Channel pressure"); (224, "Pitch wheel change") ]%string.

End StatusBytes.

(** [k in d] for a dictionary [d]. *)
Definition dict_in (k : Z) (d : gmap Z string) : bool :=
  bool_decide (is_Some (d !! k)).

(** [x in l] for a list of integers. *)
Definition list_in (x : Z) (l : list Z) : bool := bool_decide (x ∈ l).

(** ** [class Header] *)

Record Header : Type := mkHeader {
  mthd : list Z;
  hdr_length : Z;
  file_format : Z;
  ntracks : Z;
  ppqn : Z
}.

(** [Header.__init__] *)
Definition Header_init (file_format ntracks ppqn : Z) : result Header :=
  if negb (list_in file_format [0; 1; 2]) then
    Raise (MidiError "Wrong file format")
  else if bool_decide (file_format = 0) && negb (bool_decide (ntracks = 1)) then
    Raise (MidiError "Format 0 has only 1 track")
  else if bool_decide (ntracks >= 15) then
    Raise (MidiError "16 tracks is maximum for SMF( 1 track for each channel)")
  else
    Ok (mkHeader MThd 6 file_format ntracks ppqn).

(** [Header.to_hex] *)
Definition Header_to_hex (h : Header) : result (list Z) :=
  params <- pack_LHHH (hdr_length h) (file_format h) (ntracks h) (ppqn h) ;;
  Ok (mthd h ++ params).

(** ** [class Event] and its subclasses *)

Inductive EventClass : Type :=
  | EventCls | MidiEventCls | SysExEventCls | MetaEventCls.

#[global] Instance EventClass_eq_dec : EqDecision EventClass.
Proof. solve_decision. Defined.

(** An event object.  [event] is the attribute [self.event]: the list of
    pieces that [to_hex] converts with [bytes] and joins.  [length] exists
    on SysEx and Meta events only, [event_type] on Meta events only. *)
Record Event : Type := mkEvent {
  cls : EventClass;
  delta_time : Z;
  status : Z;
  data : list Z;
  event : list (list Z);
  ev_length : option Z;
  event_type : option Z
}.

(** [Event.variable_len]: the loop [for cnt in range(2)] is unrolled by
    [variable_len_loop 2].  Every element of the list is masked with
    [0x7f] and possibly or-ed with [0x80], so the final [bytes(..)] cannot
    raise (see [variable_len_is_bytes]) and the function is total. *)
Fixpoint variable_len_loop (cnt : nat) (n : Z) (variable_length : list Z)
  : Z * list Z :=
  match cnt with
  | O => (n, variable_length)
  | S cnt' =>
      if bool_decide (n > 0) then
        variable_len_loop cnt' (Z.shiftr n 7)
          (variable_length ++ [Z.lor (Z.land n 127) 128])
      else
        variable_len_loop cnt' n variable_length
  end.

Definition variable_len (time_or_len : Z) : list Z :=
  let n := time_or_len in
  let variable_length := [Z.land n 127] in
  let n := Z.shiftr n 7 in
  reverse (variable_len_loop 2 n variable_length).2.

(** [Event.str_to_int] leaves integers alone; payloads are modelled as
    lists of integers, so it is the identity here. *)
Definition str_to_int (data_with_str : list Z) : list Z := data_with_str.

(** [Event.__init__], for an object of class [c]. *)
Definition Event_init (c : EventClass) (delta_time status : Z) (data : list Z)
  : result Event :=
  if negb (bool_decide (0 <= delta_time <= 4294967167)) then
    Raise (MidiError " Wrong delta time value")
  else
    let data := str_to_int data in
    Ok (mkEvent c delta_time status data
          [variable_len delta_time; [status]; data] None None).

(** [Event.to_hex]: [b''.join(map(bytes, self.event))] *)
Definition to_hex (e : Event) : result (list Z) :=
  pieces <- rmap bytes (event e) ;; Ok (concat pieces).

(** [Event.get_delta_time]: [bytes(self.event[0])] *)
Definition get_delta_time (e : Event) : result (list Z) :=
  match event e with
  | [] => Raise IndexError
  | p :: _ => bytes p
  end.

(** [max(data)] *)
Definition py_max (data : list Z) : result Z :=
  match data with
  | [] => Raise (ValueError "max() arg is an empty sequence")
  | x :: l => Ok (foldl Z.max x l)
  end.

Definition len {A} (l : list A) : Z := Z.of_nat (length l).

(** [MidiEvent.__init__] *)
Definition MidiEvent_init (delta_time status channel_number : Z) (data : list Z)
  : result Event :=
  if negb (bool_decide (0 <= channel_number <= 15)) then Raise ChannelError
  else if negb (dict_in status StatusBytes.midi) then Raise StatusError
  else if (list_in status [192; 223] && negb (bool_decide (len data = 1)))
          || (negb (list_in status [192; 223]) && negb (bool_decide (len data = 2)))
  then Raise DataLengthError
  else
    m <- py_max data ;;
    if bool_decide (m > 127) then Raise DataError
    else Event_init MidiEventCls delta_time (status + channel_number) data.

(** [MidiEvent.get_event_type]: a dictionary lookup, [KeyError] is [None]. *)
Definition MidiEvent_get_event_type (e : Event) : option string :=
  StatusBytes.midi !! Z.land (status e) 240.

(** [SysExEvent.__init__]: after [Event.__init__] it sets [self.length]
    and overwrites [self.event].  (Arguments carry a prime where the
    body also reads the attribute of the same name.) *)
Definition SysExEvent_init (delta_time' status' : Z) (data' : list Z) : result Event :=
  if negb (dict_in status' StatusBytes.sysex) then Raise StatusError
  else
    self <- Event_init SysExEventCls delta_time' status' data' ;;
    let length := len (data self) in
    Ok (mkEvent (cls self) (delta_time self) (status self) (data self)
          [variable_len (delta_time self); [status self];
           variable_len length; data self]
          (Some length) None).

(** [MetaEvent.__init__]: the status is fixed to 255; after
    [Event.__init__] it sets [self.event_type], [self.length] and
    overwrites [self.event]. *)
Definition MetaEvent_init (event_type' delta_time' : Z) (data' : list Z) : result Event :=
  if negb (dict_in event_type' StatusBytes.meta) then
    Raise (MidiError "Wrong event type for Meta event")
  else
    self <- Event_init MetaEventCls delta_time' 255 data' ;;
    let length := len (data self) in
    Ok (mkEvent (cls self) (delta_time self) (status self) (data self)
          [variable_len (delta_time self); [status self]; [event_type'];
           variable_len length; data self]
          (Some length) (Some event_type')).

(** ** [class Track] *)

Record Track : Type := mkTrack {
  trk_header : list Z;
  events : list Event;
  running_status_mode : bool;
  trk_length : Z;
  trk_bytes : list Z
}.

(** One iteration of the loop of [Track.running_status]; the state is
    [(byte_string, current_status)]. *)
Definition running_status_step (st : list Z * Z) (ev : Event)
  : result (list Z * Z) :=
  let '(byte_string, current_status) := st in
  byte_string' <-
    (if bool_decide (current_status = status ev) && bool_decide (status ev < 240)
     then
       h <- to_hex ev ;;
       delta_time <- get_delta_time ev ;;
       Ok (byte_string ++ delta_time ++ drop (length delta_time + 1) h)
     else
       h <- to_hex ev ;; Ok (byte_string ++ h)) ;;
  Ok (byte_string', status ev).

Fixpoint running_status_loop (st : list Z * Z) (evs : list Event)
  : result (list Z * Z) :=
  match evs with
  | [] => Ok st
  | ev :: evs' => st' <- running_status_step st ev ;; running_status_loop st' evs'
  end.

(** [Track.running_status], on [self.events] *)
Definition running_status (events : list Event) : result (list Z) :=
  match events with
  | [] => Raise IndexError
  | first :: rest =>
      byte_string <- to_hex first ;;
      st <- running_status_loop (byte_string, status first) rest ;;
      Ok st.1
  end.

(** [Track.length_and_bytes] *)
Definition length_and_bytes (events : list Event) (running_status_mode : bool)
  : result (Z * list Z) :=
  byte_string <-
    (if running_status_mode then running_status events
     else hs <- rmap to_hex events ;; Ok (concat hs)) ;;
  Ok (len byte_string, byte_string).

(** [Track.__init__] *)
Definition Track_init (events : list Event) (running_status_mode : bool)
  : result Track :=
  match events with
  | [] => Raise (MidiError "Events list is empty")
  | _ =>
      lb <- length_and_bytes events running_status_mode ;;
      Ok (mkTrack MTrk events running_status_mode lb.1 lb.2)
  end.

(** [Track.to_hex] *)
Definition Track_to_hex (t : Track) : result (list Z) :=
  length <- pack_L (trk_length t) ;;
  Ok (trk_header t ++ length ++ trk_bytes t).

(** ** [class MidiFormat] *)

Record MidiFormat : Type := mkMidiFormat {
  header : Header;
  tracks : list Track
}.

(** [MidiFormat.__init__]; [None] stands for a falsy [header] argument
    (a [Header] object is always truthy). *)
Definition MidiFormat_init (header : option Header) (tracks : list Track)
  : result MidiFormat :=
  match header with
  | None => Raise (MidiError "Header is empty")
  | Some h =>
      match tracks with
      | [] => Raise (MidiError "Tracks list is empty")
      | _ => Ok (mkMidiFormat h tracks)
      end
  end.

(** [MidiFormat.to_hex] *)
Definition MidiFormat_to_hex (f : MidiFormat) : result (list Z) :=
  hdr <- Header_to_hex (header f) ;;
  ts <- rmap Track_to_hex (tracks f) ;;
  Ok (hdr ++ concat ts).

(** ** The input stream

    The file object handed to [MidiParser]: its bytes, the read position
    and whether it has been closed.  A parser method is a function from the
    stream state to an outcome and the new stream state; the state is kept
    when an exception propagates, so that what was read (and whether the
    stream was closed) can still be observed. *)

Record File : Type := mkFile {
  content : list Z;
  pos : nat;
  closed : bool
}.

(** [open(filename, 'rb')] / [io.BytesIO(bs)] *)
Definition open_bytes (bs : list Z) : File := mkFile bs 0 false.

Definition M (A : Type) : Type := File -> result A * File.

Definition ret {A} (a : A) : M A := fun f => (Ok a, f).

Definition lift {A} (r : result A) : M A := fun f => (r, f).

Definition bind {A B} (m : M A) (k : A -> M B) : M B := fun f =>
  match m f with
  | (Ok a, f') => k a f'
  | (Raise e, f') => (Raise e, f')
  | (OutOfFuel, f') => (OutOfFuel, f')
  end.

Notation "x <~ m ;; k" := (bind m (fun x => k))
  (at level 100, m at next level, right associativity, only parsing).

(** [file.read(size)]: at most [size] bytes from the current position
    (all the remaining ones when [size] is negative). *)
Definition read (size : Z) : M (list Z) := fun f =>
  if closed f then (Raise (ValueError "I/O operation on closed file"), f)
  else
    let rest := drop (pos f) (content f) in
    let bs := if bool_decide (size < 0) then rest else take (Z.to_nat size) rest in
    (Ok bs, mkFile (content f) (pos f + length bs) false).

(** [file.seek(offset, 1)]: relative to the current position. *)
Definition seek_cur (offset : Z) : M unit := fun f =>
  if closed f then (Raise (ValueError "I/O operation on closed file"), f)
  else if bool_decide (Z.of_nat (pos f) + offset < 0) then (Raise OSError, f)
  else (Ok tt, mkFile (content f) (Z.to_nat (Z.of_nat (pos f) + offset)) false).

(** [file.close()] *)
Definition close : M unit := fun f => (Ok tt, mkFile (content f) (pos f) true).

(** [unpack('>B', bs)[0]] *)
Definition unpack_B (bs : list Z) : result Z :=
  match bs with
  | [b] => Ok b
  | _ => Raise StructError
  end.

(** [unpack('>HHH', bs)] *)
Definition unpack_HHH (bs : list Z) : result (Z * Z * Z) :=
  match bs with
  | [a1; a0; b1; b0; c1; c0] => Ok (a1 * 256 + a0, b1 * 256 + b0, c1 * 256 + c0)
  | _ => Raise StructError
  end.

(** ** [class MidiParser] *)

(** [MidiParser.__variable_len] *)
Definition MidiParser_variable_len (array : list Z) : Z :=
  foldl (fun output n => Z.lor (Z.shiftl output 7) (Z.land n 127)) 0 array.

(** The loop of [MidiParser.__read_var_len]: [for cnt in range(4)] with
    its [break]; [byte] is the list read so far. *)
Fixpoint read_var_len_loop (cnt : nat) (byte : list Z) : M (list Z) :=
  match cnt with
  | O => ret byte
  | S cnt' =>
      bs <~ read 1 ;;
      b <~ lift (unpack_B bs) ;;
      let byte := byte ++ [b] in
      if bool_decide (b <= 127) then ret byte
      else read_var_len_loop cnt' byte
  end.

(** [MidiParser.__read_var_len] *)
Definition read_var_len : M Z :=
  byte <~ read_var_len_loop 4 [] ;;
  ret (MidiParser_variable_len byte).

(** [MidiParser.__read_header] *)
Definition read_header : M Header :=
  mthd <~ read 8 ;;
  if negb (bool_decide (mthd = [])) && negb (bool_decide (take 4 mthd = MThd)) then
    bs <~ read 6 ;;
    fields <~ lift (unpack_HHH bs) ;;
    let '(file_format, ntracks, ppqn) := fields in
    header <~ lift (Header_init file_format ntracks ppqn) ;;
    ret header
  else
    lift (Raise (ValueError "Wrong format of file")).

(** [MidiParser.__read_midi_event_data] *)
Definition read_midi_event_data (status : Z) : M (list Z) :=
  let length := if bool_decide (192 <= status <= 223) then 1 else 2 in
  data <~ read length ;;
  ret data.

(** [MidiParser.__read_sysex_event_data] *)
Definition read_sysex_event_data : M (Z * list Z) :=
  length <~ read_var_len ;;
  data <~ read length ;;
  ret (length, data).

(** [MidiParser.__read_meta_event_data] *)
Definition read_meta_event_data : M (Z * Z * list Z) :=
  bs <~ read 1 ;;
  event_type <~ lift (unpack_B bs) ;;
  length <~ read_var_len ;;
  data <~ read length ;;
  ret (event_type, length, data).

(** [event.status], for use where a local variable is called [status]. *)
Definition status_of (e : Event) : Z := status e.

(** [MidiParser.__read_event] *)
Definition read_event (current_event : Event) : M Event :=
  delta_time <~ read_var_len ;;
  bs <~ read 1 ;;
  status <~ lift (unpack_B bs) ;;
  if dict_in (Z.land (status_of current_event) 240) StatusBytes.midi
     && bool_decide (status < 128)
  then
    more <~ read_midi_event_data (status_of current_event) ;;
    let data := status :: removelast more in
    _ <~ seek_cur (-1) ;;
    let chn := Z.land (status_of current_event) 15 in
    lift (MidiEvent_init delta_time (status_of current_event - chn) chn data)
  else if negb (list_in status [240; 247; 255]) then
    data <~ read_midi_event_data status ;;
    let chn := Z.land status 15 in
    lift (MidiEvent_init delta_time (status - chn) chn data)
  else if bool_decide (status = 255) then
    r <~ read_meta_event_data ;;
    let '(event_type, length, data) := r in
    lift (MetaEvent_init event_type delta_time data)
  else
    r <~ read_sysex_event_data ;;
    let '(length, data) := r in
    lift (SysExEvent_init delta_time status data).

(** [isinstance(event, MetaEvent) and event.event_type == 47] *)
Definition is_end_of_track (e : Event) : bool :=
  bool_decide (cls e = MetaEventCls) && bool_decide (event_type e = Some 47).

(** The [while] loop of [MidiParser.__read_track].  [current_event] and
    [event] are the same object at the head of every iteration, so one
    argument carries both.  Python's loop has no bound; the unrolling is
    bounded by [fuel], and [read_track] supplies more fuel than there are
    bytes in the stream, each iteration consuming at least one
    (see [read_events_fuel]). *)
Fixpoint read_events (fuel : nat) (event : Event) (events : list Event)
  : M (list Event) :=
  if is_end_of_track event then ret events
  else
    match fuel with
    | O => lift OutOfFuel
    | S fuel' =>
        event' <~ read_event event ;;
        read_events fuel' event' (events ++ [event'])
    end.

(** The ordinals of the string ['Just Event'] ([Event.str_to_int]). *)
Definition Just_Event : list Z :=
  [74; 117; 115; 116; 32; 69; 118; 101; 110; 116].

(** [MidiParser.__read_track] *)
Definition read_track : M Track :=
  hdr <~ read 8 ;;
  if negb (bool_decide (hdr = [])) then
    dummy <~ lift (MetaEvent_init 1 0 Just_Event) ;;
    event <~ read_event dummy ;;
    events <~ (fun f => read_events (S (length (content f))) event [event] f) ;;
    track <~ lift (Track_init events true) ;;
    ret track
  else
    lift (Raise (ValueError "Wrong format of file")).

(** The loop [for cnt in range(header.ntracks)] of [read_all]. *)
Fixpoint read_tracks (cnt : nat) (tracks : list Track) : M (list Track) :=
  match cnt with
  | O => ret tracks
  | S cnt' =>
      track <~ read_track ;;
      read_tracks cnt' (tracks ++ [track])
  end.

(** [MidiParser.read_all] *)
Definition read_all : M MidiFormat :=
  header <~ read_header ;;
  tracks <~ read_tracks (Z.to_nat (ntracks header)) [] ;;
  file <~ lift (MidiFormat_init (Some header) tracks) ;;
  _ <~ close ;;
  ret file.

(** ** Further methods of the classes *)

(** [SysExEvent.get_event_type]: a dictionary lookup, [KeyError] is [None]. *)
Definition SysExEvent_get_event_type (e : Event) : option string :=
  StatusBytes.sysex !! status e.

(** [MetaEvent.get_event_type]: [StatusBytes.meta[self.event_type]]; an
    object without the attribute [event_type] has no such lookup. *)
Definition MetaEvent_get_event_type (e : Event) : option string :=
  et ← event_type e; StatusBytes.meta !! et.

(** ** [play.py] *)

(** [str(n)] for an integer [n] that is not negative: its decimal digits. *)
Definition str (n : nat) : string := pretty n.

(** The list [notes_names] of [generate_note_table]. *)
Definition notes_names : list string :=
  ["C"; "C#"; "D"; "D#"; "E"; "F"; "F#"; "G"; "G#"; "A"; "A#"; "B"]%string.

(** [notes_names[i % 12] + str(i // 12)], the key of the dictionary
    comprehension of [generate_note_table] for the index [i]; the index
    [i % 12] is always within the twelve names. *)
Definition note_name (i : nat) : string :=
  (default "" (notes_names !! (i mod 12)%nat) +:+ str (i / 12)%nat)%string.

(** [generate_note_table]: the comprehension over [range(128)] inserts
    the entries in order, a later one replacing an earlier one with the
    same key. *)
Definition generate_note_table : gmap string Z :=
  foldl (fun table i => <[note_name i := Z.of_nat i]> table) ∅ (seq 0 128).

(** * Vocabulary of the statements

    Notions used to state the properties below: they name parts of the
    program's state or behaviour and add nothing to the program. *)

(** The keys of [StatusBytes.midi]: the base statuses of the seven
    families of channel-voice events. *)
Definition midi_keys : list Z := [128; 144; 160; 176; 192; 208; 224].

(** The payload length [MidiEvent.__init__] asks for: the test is
    membership in the two-element list [[192, 223]], and of the seven
    statuses of [StatusBytes.midi] only 192 is in it. *)
Definition required_len (st : Z) : Z := if bool_decide (st = 192) then 1 else 2.

(** The continuation bit of a byte is its bit 7 ([0x80]). *)
Definition continuation (b : Z) : bool := Z.testbit b 7.

(** The bytes not read yet. *)
Definition remaining (f : File) : list Z := drop (pos f) (content f).

(** The stream after [k] more bytes have been read. *)
Definition advance (k : nat) (f : File) : File :=
  mkFile (content f) (pos f + k) false.

(** The events of the examples: [MidiEvent(1270000, 144, 9, [60, 127])],
    [MidiEvent(127, 144, 9, [60, 0])], [MidiEvent(127, 128, 9, [60, 0])]
    and [MetaEvent(47, 0)], as the constructors return them
    (see [example_events_constructed]). *)
Definition example_note_on : Event :=
  mkEvent MidiEventCls 1270000 153 [60; 127]
    [[205; 193; 112]; [153]; [60; 127]] None None.

Definition example_note_on_again : Event :=
  mkEvent MidiEventCls 127 153 [60; 0] [[127]; [153]; [60; 0]] None None.

Definition example_note_off : Event :=
  mkEvent MidiEventCls 127 137 [60; 0] [[127]; [137]; [60; 0]] None None.

Definition example_end_of_track : Event :=
  mkEvent MetaEventCls 0 255 [] [[0]; [255]; [47]; [0]; []] (Some 0) (Some 47).

(** An event object made by one of the constructors of the three
    variants, or by the base class directly. *)
Definition constructed (e : Event) : Prop :=
  (exists dt st ch d, MidiEvent_init dt st ch d = Ok e) \/
  (exists dt st d, SysExEvent_init dt st d = Ok e) \/
  (exists et dt d, MetaEvent_init et dt d = Ok e) \/
  (exists dt st d, Event_init EventCls dt st d = Ok e).

(** The state [(byte_string, current_status)] of [Track.running_status]
    once all of [events] has been processed. *)
Definition running_status_state (events : list Event) : result (list Z * Z) :=
  match events with
  | [] => Raise IndexError
  | first :: rest =>
      byte_string <- to_hex first ;;
      running_status_loop (byte_string, status first) rest
  end.

(** The end-to-end example: [Header(0, 1, 96)] and one track with a
    Note On and a Note Off on channel 9 and the End of Track event. *)
Definition example_events : list Event :=
  [example_note_on; example_note_off; example_end_of_track].

Definition example_track : Track :=
  mkTrack MTrk example_events true 14
    [205; 193; 112; 153; 60; 127; 127; 137; 60; 0; 0; 255; 47; 0].

Definition example_file : list Z :=
  [77; 84; 104; 100; 0; 0; 0; 6; 0; 0; 0; 1; 0; 96;
   77; 84; 114; 107; 0; 0; 0; 14;
   205; 193; 112; 153; 60; 127; 127; 137; 60; 0; 0; 255; 47; 0].

(** A parser method that never closes (or reopens) the stream. *)
Definition keeps_closed {A} (m : M A) : Prop :=
  forall f, closed (m f).2 = closed f.

(** [read_all] up to, and not including, [self.file.close()]. *)
Definition read_all_body : M MidiFormat :=
  header <~ read_header ;;
  tracks <~ read_tracks (Z.to_nat (ntracks header)) [] ;;
  lift (MidiFormat_init (Some header) tracks).

(** An outcome of the program itself: a return value or an exception,
    not a cut-off unrolling. *)
Definition total {A} (r : result A) : Prop := r <> OutOfFuel.

(** The number of bytes not read yet. *)
Definition unread (f : File) : Z := Z.of_nat (length (remaining f)).

(** [consumes k m]: the method [m] returns or raises, and when it returns
    it has left the bytes of the stream alone and moved the position
    forward by [k] bytes or more ([k] may be negative). *)
Definition consumes {A} (k : Z) (m : M A) : Prop :=
  forall f,
    total (m f).1 /\
    forall a, (m f).1 = Ok a ->
      content (m f).2 = content f /\ unread (m f).2 + k <= unread f.

(** The keys of [StatusBytes.meta]: the event types of Meta events. *)
Definition meta_keys : list Z :=
  [0; 1; 2; 3; 4; 5; 6; 7; 8; 9; 32; 33; 47; 81; 84; 88; 89; 127].

(** The bytes of an event in full: the pieces of [self.event] joined,
    which is what [to_hex] returns when it returns. *)
Definition wire (e : Event) : list Z := concat (event e).

(** The test of [Track.running_status] under which the status byte of
    [e] is left out after [prev]. *)
Definition elides (prev e : Event) : bool :=
  bool_decide (status prev = status e) && bool_decide (status e < 240).

(** The bytes written for [e] after [prev] in a track whose
    running-status mode is [mode]. *)
Definition piece (mode : bool) (prev e : Event) : list Z :=
  if mode && elides prev e then variable_len (delta_time e) ++ data e
  else wire e.

(** The bytes written for the events [evs] that follow [prev]. *)
Fixpoint pieces (mode : bool) (prev : Event) (evs : list Event) : list Z :=
  match evs with
  | [] => []
  | e :: evs' => piece mode prev e ++ pieces mode e evs'
  end.

(** The event stream of a track. *)
Definition track_wire (mode : bool) (evs : list Event) : list Z :=
  match evs with
  | [] => []
  | e0 :: rest => wire e0 ++ pieces mode e0 rest
  end.

(** The number of events of [evs], following [prev], whose status byte
    running status leaves out. *)
Fixpoint elided_count (prev : Event) (evs : list Event) : nat :=
  match evs with
  | [] => 0
  | e :: evs' => (if elides prev e then 1 else 0) + elided_count e evs'
  end.

(** The chunk of [example_track], as [Track.to_hex] writes it. *)
Definition example_track_wire : list Z :=
  [77; 84; 114; 107; 0; 0; 0; 14;
   205; 193; 112; 153; 60; 127; 127; 137; 60; 0; 0; 255; 47; 0].

(** An event the decoder can read back: made by the constructor of one
    of the three variants, not a Channel Pressure event, and with a delta
    time and a payload length that [variable_len] writes without loss. *)
Definition decodable (e : Event) : Prop :=
  (exists dt st ch d,
     MidiEvent_init dt st ch d = Ok e /\ st <> 208 /\ dt < 2097152) \/
  (exists dt st d,
     SysExEvent_init dt st d = Ok e /\ dt < 2097152 /\ len d < 2097152) \/
  (exists et dt d,
     MetaEvent_init et dt d = Ok e /\ dt < 2097152 /\ len d < 2097152).

(** The events [cur :: evs] end with the End of Track event and hold no
    other one. *)
Fixpoint track_ends (cur : Event) (evs : list Event) : Prop :=
  match evs with
  | [] => is_end_of_track cur = true
  | e :: evs' => is_end_of_track cur = false /\ track_ends e evs'
  end.

(** A track the decoder can read back: built by [Track.__init__] from
    decodable events that serialise and end with the End of Track event,
    with a byte count that fits the length field. *)
Definition decodable_track (t : Track) : Prop :=
  exists e0 rest mode,
    Track_init (e0 :: rest) mode = Ok t /\
    Forall decodable (e0 :: rest) /\
    Forall (fun e => is_ok (to_hex e)) (e0 :: rest) /\
    track_ends e0 rest /\
    trk_length t <= 4294967295.

(** The track the decoder builds for the events of [t]: [Track(events)],
    with the default running-status mode. *)
Definition decoded_track (t : Track) : Track :=
  mkTrack MTrk (events t) true
    (len (track_wire true (events t))) (track_wire true (events t)).

(** * Properties *)

(** ** Small checks of the embedding on the program's own examples *)

Example variable_len_0 : variable_len 0 = [0].
Proof. reflexivity. Qed.

Example variable_len_127 : variable_len 127 = [127].
Proof. reflexivity. Qed.

Example variable_len_1270000 : variable_len 1270000 = [205; 193; 112].
Proof. reflexivity. Qed.

Example decode_1270000 : MidiParser_variable_len [205; 193; 112] = 1270000.
Proof. reflexivity. Qed.

(** ** Header construction *)

Lemma list_in_spec (x : Z) (l : list Z) : list_in x l = true <-> x ∈ l.
Proof. unfold list_in. by rewrite bool_decide_eq_true. Qed.

Lemma formats_spec (x : Z) : x ∈ [0; 1; 2] <-> x = 0 \/ x = 1 \/ x = 2.
Proof. rewrite !elem_of_cons, elem_of_nil. tauto. Qed.

(** The outcome of [Header.__init__] as a function of its arguments. *)
Lemma Header_init_cases (ff nt pq : Z) :
  ff ∈ [0; 1; 2] ->
  if bool_decide (nt < 15 /\ (ff = 0 -> nt = 1))
  then Header_init ff nt pq = Ok (mkHeader MThd 6 ff nt pq)
  else exists msg, Header_init ff nt pq = Raise (MidiError msg).
Proof.
  intros Hff. unfold Header_init.
  apply list_in_spec in Hff as ->. simpl.
  repeat case_bool_decide; simpl; eauto; lia.
Qed.

(** C9.  For a file format in {0,1,2}, [Header.__init__] returns a header
    (holding exactly the given fields) when the track count is below 15
    and, for format 0, equal to 1; in every other case it raises
    [MidiError].  In particular (0,2) and (1,15) are refused and (1,14) is
    accepted, whatever the resolution. *)
Theorem Header_init_succeeds_iff (ff nt pq : Z) :
  ff ∈ [0; 1; 2] ->
  (exists msg, Header_init 0 2 pq = Raise (MidiError msg)) /\
  (exists msg, Header_init 1 15 pq = Raise (MidiError msg)) /\
  Header_init 1 14 pq = Ok (mkHeader MThd 6 1 14 pq) /\
  (is_ok (Header_init ff nt pq) <-> nt < 15 /\ (ff = 0 -> nt = 1)) /\
  (nt < 15 /\ (ff = 0 -> nt = 1) ->
     Header_init ff nt pq = Ok (mkHeader MThd 6 ff nt pq)) /\
  (~ (nt < 15 /\ (ff = 0 -> nt = 1)) ->
     exists msg, Header_init ff nt pq = Raise (MidiError msg)).
Proof.
  intros Hff.
  split; [by eexists|]. split; [by eexists|]. split; [done|].
  pose proof (Header_init_cases ff nt pq Hff) as H.
  case_bool_decide as Hc.
  - split; [|split].
    + split; [done|]. intros _. by eexists.
    + done.
    + tauto.
  - destruct H as [msg H]. split; [|split].
    + split; [|tauto]. intros [h Hh]. congruence.
    + tauto.
    + intros _. by eexists.
Qed.

Lemma Header_init_succeeds_iff_witness :
  Header_init 1 14 96 = Ok (mkHeader MThd 6 1 14 96) /\
  (is_ok (Header_init 0 1 96) <-> 1 < 15 /\ (0 = 0 -> 1 = 1)).
Proof.
  assert (H1 : (1 : Z) ∈ [0; 1; 2]) by (apply formats_spec; lia).
  assert (H0 : (0 : Z) ∈ [0; 1; 2]) by (apply formats_spec; lia).
  split.
  - exact (proj1 (proj2 (proj2 (Header_init_succeeds_iff 1 14 96 H1)))).
  - exact (proj1 (proj2 (proj2 (proj2 (Header_init_succeeds_iff 0 1 96 H0))))).
Defined.

(** ** Dictionary membership *)

Lemma dict_in_list_to_map (k : Z) (l : list (Z * string)) :
  dict_in k (list_to_map l) = true <-> k ∈ l.*1.
Proof.
  unfold dict_in. rewrite bool_decide_eq_true, <- not_eq_None_Some.
  pose proof (not_elem_of_list_to_map (M := gmap Z) l k) as H.
  destruct (decide (k ∈ l.*1)); tauto.
Qed.

Lemma dict_in_midi (k : Z) :
  dict_in k StatusBytes.midi = true <-> k ∈ midi_keys.
Proof. apply dict_in_list_to_map. Qed.

Lemma dict_in_sysex (k : Z) :
  dict_in k StatusBytes.sysex = true <-> k ∈ [240; 247].
Proof. apply dict_in_list_to_map. Qed.

Lemma midi_keys_spec (k : Z) :
  k ∈ midi_keys <->
  k = 128 \/ k = 144 \/ k = 160 \/ k = 176 \/ k = 192 \/ k = 208 \/ k = 224.
Proof. unfold midi_keys. rewrite !elem_of_cons, elem_of_nil. tauto. Qed.

(** ** Construction of channel-voice events *)

Lemma foldl_max_le (bound : Z) (l : list Z) (x : Z) :
  foldl Z.max x l <= bound <-> x <= bound /\ Forall (fun y => y <= bound) l.
Proof.
  revert x. induction l as [|y l IH]; intros x; simpl.
  - rewrite Forall_nil. tauto.
  - rewrite IH, Forall_cons.
    assert (Z.max x y <= bound <-> x <= bound /\ y <= bound) by lia. tauto.
Qed.

Lemma py_max_le (bound : Z) (l : list Z) (m : Z) :
  py_max l = Ok m -> (m <= bound <-> Forall (fun y => y <= bound) l).
Proof.
  destruct l as [|x l]; simpl; [done|]. intros [= <-].
  rewrite foldl_max_le, Forall_cons. tauto.
Qed.

(** [MidiEvent.__init__] returns exactly under these conditions, and then
    returns this object. *)
Lemma MidiEvent_init_Ok (dt st ch : Z) (d : list Z) (e : Event) :
  MidiEvent_init dt st ch d = Ok e <->
  0 <= ch <= 15 /\ st ∈ midi_keys /\ len d = required_len st /\
  Forall (fun y => y <= 127) d /\ 0 <= dt <= 4294967167 /\
  e = mkEvent MidiEventCls dt (st + ch) d
        [variable_len dt; [st + ch]; d] None None.
Proof.
  unfold MidiEvent_init, Event_init, required_len, str_to_int.
  destruct (bool_decide (0 <= ch <= 15)) eqn:Hch; simpl;
    [apply bool_decide_eq_true in Hch | apply bool_decide_eq_false in Hch];
    [|split; [done | tauto]].
  destruct (dict_in st StatusBytes.midi) eqn:Hst; simpl.
  2:{ split; [done|]. intros (_ & Hk & _). apply dict_in_midi in Hk. congruence. }
  apply dict_in_midi in Hst.
  assert (Hl : list_in st [192; 223] = bool_decide (st = 192)).
  { unfold list_in. apply bool_decide_ext.
    rewrite !elem_of_cons, elem_of_nil. apply midi_keys_spec in Hst. lia. }
  rewrite Hl.
  destruct (bool_decide (st = 192)) eqn:H192; simpl;
    (destruct (bool_decide (len d = _)) eqn:Hlen; simpl;
     [apply bool_decide_eq_true in Hlen | apply bool_decide_eq_false in Hlen];
     [|split; [done | tauto]]).
  all: destruct d as [|x d']; [exfalso; unfold len in Hlen; simpl in Hlen; lia|].
  all: pose proof (py_max_le 127 (x :: d') _ eq_refl) as Hmax.
  all: unfold py_max; simpl rbind.
  all: clear Hl H192.
  all: destruct (bool_decide (foldl Z.max x d' > 127)) eqn:Hm127;
    [apply bool_decide_eq_true in Hm127 | apply bool_decide_eq_false in Hm127];
    [split; [done|]; intros (_ & _ & _ & Hd & _); apply Hmax in Hd; lia |].
  all: destruct (bool_decide (0 <= dt <= 4294967167)) eqn:Hdt; simpl;
    [apply bool_decide_eq_true in Hdt | apply bool_decide_eq_false in Hdt];
    [|split; [done | tauto]].
  all: split; [intros [= <-]; repeat split; try done; try lia; apply Hmax; lia
              | by intros (_ & _ & _ & _ & _ & ->)].
Qed.

(** C10.  A channel-voice event that [MidiEvent.__init__] returned has a
    channel in [0,15] and a base status among the seven keys of
    [StatusBytes.midi]; its stored status is base status plus channel, the
    high nibble of the stored status is the base status and the low nibble
    the channel, so the lookup of [get_event_type] (key [status & 240])
    finds an entry of [StatusBytes.midi]. *)
Theorem MidiEvent_status_nibbles (dt st ch : Z) (d : list Z) (e : Event) :
  MidiEvent_init dt st ch d = Ok e ->
  0 <= ch <= 15 /\ st ∈ midi_keys /\
  status e = st + ch /\
  Z.land (status e) 240 = st /\
  Z.land (status e) 15 = ch /\
  Z.land (status e) 240 ∈ midi_keys /\
  StatusBytes.midi !! st = MidiEvent_get_event_type e /\
  is_Some (MidiEvent_get_event_type e).
Proof.
  intros (Hch & Hst & _ & _ & _ & ->)%MidiEvent_init_Ok.
  unfold MidiEvent_get_event_type. simpl.
  assert (Hhi : Z.land (st + ch) 240 = st /\ Z.land (st + ch) 15 = ch).
  { apply midi_keys_spec in Hst.
    assert (Hc : ch = 0 \/ ch = 1 \/ ch = 2 \/ ch = 3 \/ ch = 4 \/ ch = 5 \/
                 ch = 6 \/ ch = 7 \/ ch = 8 \/ ch = 9 \/ ch = 10 \/ ch = 11 \/
                 ch = 12 \/ ch = 13 \/ ch = 14 \/ ch = 15) by lia.
    clear Hch.
    repeat (destruct Hst as [-> | Hst]); try subst st;
      repeat (destruct Hc as [-> | Hc]); try subst ch; by vm_compute. }
  destruct Hhi as [Hhi Hlo]. rewrite Hhi, Hlo.
  repeat split; try done; try lia.
  apply dict_in_midi in Hst. unfold dict_in in Hst.
  by apply bool_decide_eq_true in Hst.
Qed.

Lemma MidiEvent_status_nibbles_witness :
  exists e, MidiEvent_init 1270000 144 9 [60; 127] = Ok e /\
            status e = 153 /\ Z.land (status e) 240 = 144 /\
            Z.land (status e) 15 = 9 /\
            MidiEvent_get_event_type e = Some "Note on"%string.
Proof.
  eexists. split; [reflexivity|].
  pose proof (MidiEvent_status_nibbles 1270000 144 9 [60; 127] _ eq_refl)
    as (_ & _ & Hs & Hhi & Hlo & _ & Hty & _).
  split; [exact Hs|]. split; [exact Hhi|]. split; [exact Hlo|].
  rewrite <- Hty. reflexivity.
Defined.

(** ** The variable-length quantity: bit operations as arithmetic *)

Lemma land_127 (x : Z) : Z.land x 127 = x mod 128.
Proof. change 127 with (Z.ones 7). by rewrite Z.land_ones. Qed.

Lemma shiftr_7 (x : Z) : Z.shiftr x 7 = x / 128.
Proof. by rewrite Z.shiftr_div_pow2. Qed.

Lemma shiftl_7 (x : Z) : Z.shiftl x 7 = x * 128.
Proof. by rewrite Z.shiftl_mul_pow2. Qed.

Lemma lor_shifted (a b : Z) : 0 <= b < 128 -> Z.lor (a * 128) b = a * 128 + b.
Proof.
  intros Hb. symmetry. apply Z.add_nocarry_lor.
  apply Z.bits_inj'. intros i Hi.
  rewrite Z.land_spec, Z.bits_0.
  destruct (decide (i < 7)) as [Hlt|Hge].
  - change 128 with (2 ^ 7). by rewrite Z.mul_pow2_bits_low.
  - rewrite (Z.bits_above_log2 b i), andb_false_r; [done | lia |].
    destruct (decide (b = 0)) as [->|]; [simpl; lia|].
    assert (Z.log2 b < 7); [|lia]. apply Z.log2_lt_pow2; lia.
Qed.

Lemma lor_128 (y : Z) : 0 <= y < 128 -> Z.lor y 128 = y + 128.
Proof.
  intros Hy. rewrite Z.lor_comm.
  change 128 with (1 * 128) at 1. rewrite lor_shifted by done. lia.
Qed.

Lemma continuation_ge (b : Z) : 0 <= b < 256 -> continuation b = bool_decide (128 <= b).
Proof.
  intros Hb. unfold continuation.
  rewrite Z.testbit_eqb by lia. change (2 ^ 7) with 128.
  case_bool_decide; apply Z.eqb_eq || apply Z.eqb_neq;
    Z.to_euclidean_division_equations; lia.
Qed.

(** What [Event.variable_len] returns, case by case: the loop runs twice,
    so at most three groups of seven bits are emitted. *)
Lemma variable_len_cases (n : Z) :
  0 <= n ->
  variable_len n =
    if bool_decide (n < 128) then [n mod 128]
    else if bool_decide (n < 16384) then [(n / 128) mod 128 + 128; n mod 128]
    else [(n / 16384) mod 128 + 128; (n / 128) mod 128 + 128; n mod 128].
Proof.
  intros Hn. unfold variable_len. simpl variable_len_loop.
  rewrite !shiftr_7, !land_127.
  assert (Hdd : n / 128 / 128 = n / 16384) by (rewrite Z.div_div by lia; done).
  repeat case_bool_decide; simpl;
    rewrite ?shiftr_7, ?land_127, ?Hdd, ?lor_128
      by (Z.to_euclidean_division_equations; lia);
    try done; exfalso; Z.to_euclidean_division_equations; lia.
Qed.

Lemma MidiParser_variable_len_3 (a b c : Z) :
  0 <= a < 128 -> 0 <= b < 128 -> 0 <= c < 128 ->
  MidiParser_variable_len [a + 128; b + 128; c] = (a * 128 + b) * 128 + c.
Proof.
  intros Ha Hb Hc. unfold MidiParser_variable_len. simpl.
  rewrite !land_127, !shiftl_7.
  replace ((a + 128) mod 128) with a by (Z.to_euclidean_division_equations; lia).
  replace ((b + 128) mod 128) with b by (Z.to_euclidean_division_equations; lia).
  replace (c mod 128) with c by (Z.to_euclidean_division_equations; lia).
  rewrite !lor_shifted by lia. lia.
Qed.

Lemma MidiParser_variable_len_2 (b c : Z) :
  0 <= b < 128 -> 0 <= c < 128 ->
  MidiParser_variable_len [b + 128; c] = b * 128 + c.
Proof.
  intros Hb Hc. unfold MidiParser_variable_len. simpl.
  rewrite !land_127, !shiftl_7.
  replace ((b + 128) mod 128) with b by (Z.to_euclidean_division_equations; lia).
  replace (c mod 128) with c by (Z.to_euclidean_division_equations; lia).
  rewrite !lor_shifted by lia. lia.
Qed.

Lemma MidiParser_variable_len_1 (c : Z) :
  0 <= c < 128 -> MidiParser_variable_len [c] = c.
Proof.
  intros Hc. unfold MidiParser_variable_len. simpl.
  rewrite !land_127, !shiftl_7.
  replace (c mod 128) with c by (Z.to_euclidean_division_equations; lia).
  rewrite !lor_shifted by lia. lia.
Qed.

(** Decoding what [Event.variable_len] emitted gives the low 21 bits. *)
Lemma decode_variable_len (n : Z) :
  0 <= n -> MidiParser_variable_len (variable_len n) = n mod 2097152.
Proof.
  intros Hn. rewrite variable_len_cases by done.
  repeat case_bool_decide.
  - rewrite MidiParser_variable_len_1; Z.to_euclidean_division_equations; lia.
  - rewrite MidiParser_variable_len_2; Z.to_euclidean_division_equations; lia.
  - rewrite MidiParser_variable_len_3; Z.to_euclidean_division_equations; lia.
Qed.

(** The emitted list is a [bytes] object of one to three elements in
    which exactly the last one has the continuation bit clear. *)
Lemma variable_len_shape (n : Z) :
  0 <= n ->
  Forall is_byte (variable_len n) /\
  (1 <= length (variable_len n) <= 3)%nat /\
  exists front last_byte,
    variable_len n = front ++ [last_byte] /\
    Forall (fun b => continuation b = true) front /\
    continuation last_byte = false.
Proof.
  intros Hn. rewrite variable_len_cases by done. unfold is_byte.
  repeat case_bool_decide.
  - split; [|split; [simpl; lia|]].
    + repeat constructor; Z.to_euclidean_division_equations; lia.
    + exists [], (n mod 128). split; [done|]. split; [constructor|].
      rewrite continuation_ge, bool_decide_eq_false;
        Z.to_euclidean_division_equations; lia.
  - split; [|split; [simpl; lia|]].
    + repeat constructor; Z.to_euclidean_division_equations; lia.
    + exists [n / 128 mod 128 + 128], (n mod 128). split; [done|].
      split; [repeat constructor|];
        rewrite continuation_ge; rewrite ?bool_decide_eq_true, ?bool_decide_eq_false;
        Z.to_euclidean_division_equations; lia.
  - split; [|split; [simpl; lia|]].
    + repeat constructor; Z.to_euclidean_division_equations; lia.
    + exists [n / 16384 mod 128 + 128; n / 128 mod 128 + 128], (n mod 128).
      split; [done|].
      split; [repeat constructor|];
        rewrite continuation_ge; rewrite ?bool_decide_eq_true, ?bool_decide_eq_false;
        Z.to_euclidean_division_equations; lia.
Qed.

Lemma variable_len_is_bytes (n : Z) : 0 <= n -> bytes (variable_len n) = Ok (variable_len n).
Proof.
  intros Hn. unfold bytes. rewrite bool_decide_eq_true_2; [done|].
  by apply variable_len_shape.
Qed.

(** The round trip holds below 2^21. *)
Lemma decode_variable_len_small (n : Z) :
  0 <= n < 2097152 -> MidiParser_variable_len (variable_len n) = n.
Proof.
  intros Hn. rewrite decode_variable_len by lia.
  Z.to_euclidean_division_equations; lia.
Qed.

(** C3 (what the code does instead).  From 2^21 = 2097152 up to
    0x0FFFFFFF the encoder still emits three bytes only, its loop running
    [range(2)] times, and decoding them returns the low 21 bits of [n],
    which is not [n]: the documented "1-4 bytes" round trip is lost. *)
Theorem variable_len_roundtrip_fails (n : Z) :
  2097152 <= n <= 268435455 ->
  length (variable_len n) = 3%nat /\
  MidiParser_variable_len (variable_len n) = n mod 2097152 /\
  MidiParser_variable_len (variable_len n) <> n.
Proof.
  intros Hn. split; [|split].
  - rewrite variable_len_cases by lia.
    rewrite !bool_decide_eq_false_2 by lia. done.
  - apply decode_variable_len. lia.
  - rewrite decode_variable_len by lia.
    Z.to_euclidean_division_equations; lia.
Qed.

Lemma variable_len_roundtrip_fails_witness :
  variable_len 2097152 = [128; 128; 0] /\
  MidiParser_variable_len (variable_len 2097152) <> 2097152.
Proof.
  split; [reflexivity|].
  apply (variable_len_roundtrip_fails 2097152). lia.
Defined.

(** ** Construction of events: when the constructors return *)

Lemma Event_init_Ok (c : EventClass) (dt st : Z) (d : list Z) (e : Event) :
  Event_init c dt st d = Ok e <->
  0 <= dt <= 4294967167 /\
  e = mkEvent c dt st d [variable_len dt; [st]; d] None None.
Proof.
  unfold Event_init, str_to_int. case_bool_decide; simpl.
  - split; [by intros [= <-] | by intros [_ ->]].
  - split; [done | tauto].
Qed.

Lemma SysExEvent_init_Ok (dt st : Z) (d : list Z) (e : Event) :
  SysExEvent_init dt st d = Ok e <->
  st ∈ [240; 247] /\ 0 <= dt <= 4294967167 /\
  e = mkEvent SysExEventCls dt st d
        [variable_len dt; [st]; variable_len (len d); d] (Some (len d)) None.
Proof.
  unfold SysExEvent_init.
  destruct (dict_in st StatusBytes.sysex) eqn:Hst; simpl.
  - apply dict_in_sysex in Hst.
    destruct (Event_init SysExEventCls dt st d) as [self| |] eqn:Hself; simpl.
    + apply Event_init_Ok in Hself as [Hdt ->]. simpl.
      split; [by intros [= <-] | by intros (_ & _ & ->)].
    + split; [done|]. intros (_ & Hdt & _).
      pose proof (proj2 (Event_init_Ok SysExEventCls dt st d _) (conj Hdt eq_refl)).
      congruence.
    + unfold Event_init in Hself. by case_bool_decide.
  - split; [done|]. intros [Hk _]. apply dict_in_sysex in Hk. congruence.
Qed.

Lemma MetaEvent_init_Ok (et dt : Z) (d : list Z) (e : Event) :
  MetaEvent_init et dt d = Ok e <->
  dict_in et StatusBytes.meta = true /\ 0 <= dt <= 4294967167 /\
  e = mkEvent MetaEventCls dt 255 d
        [variable_len dt; [255]; [et]; variable_len (len d); d]
        (Some (len d)) (Some et).
Proof.
  unfold MetaEvent_init.
  destruct (dict_in et StatusBytes.meta) eqn:Het; simpl.
  - destruct (Event_init MetaEventCls dt 255 d) as [self| |] eqn:Hself; simpl.
    + apply Event_init_Ok in Hself as [Hdt ->]. simpl.
      split; [by intros [= <-] | by intros (_ & _ & ->)].
    + split; [done|]. intros (_ & Hdt & _).
      pose proof (proj2 (Event_init_Ok MetaEventCls dt 255 d _) (conj Hdt eq_refl)).
      congruence.
    + unfold Event_init in Hself. by case_bool_decide.
  - split; [done|]. by intros [? _].
Qed.

(** ** The delta-time bound *)

(** C8 (what the code does instead).  The guard of [Event.__init__] is
    [0 <= delta_time <= 4294967167] (0xFFFFFF7F), not [<= 0x0FFFFFFF]:
    every delta time in (0x0FFFFFFF, 0xFFFFFF7F] is accepted by the base
    constructor and by each of the three variants, although the bytes
    [variable_len] emits for it decode to a different number. *)
Theorem Event_init_accepts_beyond_vlq (c : EventClass) (dt st : Z) (d : list Z) :
  268435455 < dt <= 4294967167 ->
  Event_init c dt st d = Ok (mkEvent c dt st d [variable_len dt; [st]; d] None None) /\
  is_ok (MidiEvent_init dt 144 0 [60; 127]) /\
  is_ok (SysExEvent_init dt 240 d) /\
  is_ok (MetaEvent_init 47 dt d) /\
  MidiParser_variable_len (variable_len dt) <> dt.
Proof.
  intros Hdt. split; [|split; [|split; [|split]]].
  - apply Event_init_Ok. split; [lia | done].
  - eexists. apply MidiEvent_init_Ok.
    split; [lia|]. split; [apply midi_keys_spec; lia|]. split; [done|].
    split; [repeat constructor; lia|]. split; [lia | done].
  - eexists. apply SysExEvent_init_Ok.
    split; [|split; [lia | done]]. rewrite !elem_of_cons. lia.
  - eexists. apply MetaEvent_init_Ok. split; [done|]. split; [lia | done].
  - rewrite decode_variable_len by lia.
    Z.to_euclidean_division_equations; lia.
Qed.

Lemma Event_init_accepts_beyond_vlq_witness :
  is_ok (MetaEvent_init 47 268435456 []) /\
  MidiParser_variable_len (variable_len 268435456) <> 268435456.
Proof.
  assert (H : 268435455 < 268435456 <= 4294967167) by lia.
  pose proof (Event_init_accepts_beyond_vlq MetaEventCls 268435456 255 [] H)
    as (_ & _ & _ & Hmeta & Hrt).
  exact (conj Hmeta Hrt).
Defined.

(** ** Payload length of channel-voice events *)

Lemma MidiEvent_init_DataLengthError (dt st ch : Z) (d : list Z) :
  0 <= ch <= 15 -> st ∈ midi_keys -> len d <> required_len st ->
  MidiEvent_init dt st ch d = Raise DataLengthError.
Proof.
  intros Hch Hst Hlen. unfold MidiEvent_init, required_len in *.
  rewrite bool_decide_eq_true_2 by done. simpl.
  rewrite (proj2 (dict_in_midi st)) by done. simpl.
  assert (Hl : list_in st [192; 223] = bool_decide (st = 192)).
  { unfold list_in. apply bool_decide_ext.
    rewrite !elem_of_cons, elem_of_nil. apply midi_keys_spec in Hst. lia. }
  rewrite Hl. destruct (bool_decide (st = 192)); simpl;
    by rewrite bool_decide_eq_false_2.
Qed.

(** For a valid channel, base status, payload values and delta time, the
    constructor returns exactly when the payload has [required_len]
    bytes and raises [DataLengthError] otherwise. *)
Lemma MidiEvent_init_length_rule (dt st ch : Z) (d : list Z) :
  0 <= ch <= 15 -> st ∈ midi_keys -> Forall (fun y => y <= 127) d ->
  0 <= dt <= 4294967167 ->
  (is_ok (MidiEvent_init dt st ch d) <-> len d = required_len st) /\
  (len d <> required_len st -> MidiEvent_init dt st ch d = Raise DataLengthError).
Proof.
  intros Hch Hst Hd Hdt. split.
  - split.
    + intros [e He]. by apply MidiEvent_init_Ok in He as (_ & _ & Hl & _).
    + intros Hl. eexists. by apply MidiEvent_init_Ok.
  - by apply MidiEvent_init_DataLengthError.
Qed.

(** C5 (what the code does instead).  The length test of
    [MidiEvent.__init__] is [status in [192, 223]], a list of two numbers
    and not the range 192..223 that the decoder's
    [__read_midi_event_data] uses.  So Channel Pressure (208) is asked for
    two payload bytes: with one byte the constructor raises
    [DataLengthError], with two it returns, while the decoder reads one
    byte for that status.  Program Change (192) takes one byte and the
    five other families two. *)
Theorem MidiEvent_init_channel_pressure (dt ch x y : Z) :
  0 <= ch <= 15 -> x <= 127 -> y <= 127 -> 0 <= dt <= 4294967167 ->
  MidiEvent_init dt 208 ch [x] = Raise DataLengthError /\
  is_ok (MidiEvent_init dt 208 ch [x; y]) /\
  is_ok (MidiEvent_init dt 192 ch [x]) /\
  MidiEvent_init dt 192 ch [x; y] = Raise DataLengthError /\
  (read_midi_event_data (208 + ch) (open_bytes [x; y])).1 = Ok [x].
Proof.
  intros Hch Hx Hy Hdt.
  assert (H208 : 208 ∈ midi_keys) by (apply midi_keys_spec; lia).
  assert (H192 : 192 ∈ midi_keys) by (apply midi_keys_spec; lia).
  split; [|split; [|split; [|split]]].
  - by apply MidiEvent_init_DataLengthError.
  - apply MidiEvent_init_length_rule; try done. repeat constructor; lia.
  - apply MidiEvent_init_length_rule; try done. repeat constructor; lia.
  - by apply MidiEvent_init_DataLengthError.
  - unfold read_midi_event_data.
    by rewrite bool_decide_eq_true_2 by lia.
Qed.

Lemma MidiEvent_init_channel_pressure_witness :
  MidiEvent_init 0 208 0 [64] = Raise DataLengthError /\
  is_ok (MidiEvent_init 0 208 0 [64; 0]).
Proof.
  assert (Hch : 0 <= 0 <= 15) by lia.
  assert (Hx : 64 <= 127) by lia.
  assert (Hy : 0 <= 127) by lia.
  assert (Hdt : 0 <= 0 <= 4294967167) by lia.
  pose proof (MidiEvent_init_channel_pressure 0 0 64 0 Hch Hx Hy Hdt)
    as (H1 & H2 & _).
  exact (conj H1 H2).
Defined.

(** ** Reading from the stream *)

Lemma remaining_advance (k : nat) (f : File) :
  remaining (advance k f) = drop k (remaining f).
Proof. unfold remaining, advance. simpl. by rewrite drop_drop. Qed.

Lemma advance_0 (f : File) : closed f = false -> advance 0 f = f.
Proof. destruct f as [c p cl]. unfold advance. simpl. intros ->. f_equal. lia. Qed.

Lemma advance_advance (j k : nat) (f : File) :
  advance k (advance j f) = advance (j + k) f.
Proof. unfold advance. simpl. f_equal. lia. Qed.

Lemma read_1_cons (f : File) (b : Z) (tl : list Z) :
  closed f = false -> remaining f = b :: tl ->
  read 1 f = (Ok [b], advance 1 f).
Proof.
  unfold read, remaining. intros -> ->. by rewrite bool_decide_eq_false_2 by lia.
Qed.

Lemma read_1_nil (f : File) :
  closed f = false -> remaining f = [] ->
  read 1 f = (Ok [], advance 0 f).
Proof.
  unfold read, remaining. intros -> ->. by rewrite bool_decide_eq_false_2 by lia.
Qed.

(** ** Decoding a variable-length quantity *)

(** One iteration of the loop of [__read_var_len] on a byte that has the
    high bit set: the byte is appended and the loop goes on. *)
Lemma read_var_len_loop_continue (cnt : nat) (acc : list Z) (f : File) (c : Z) (tl : list Z) :
  closed f = false -> remaining f = c :: tl -> 127 < c ->
  read_var_len_loop (S cnt) acc f = read_var_len_loop cnt (acc ++ [c]) (advance 1 f).
Proof.
  intros Hf Hrem Hc. simpl. unfold bind.
  rewrite (read_1_cons f c tl) by done. unfold lift. simpl.
  by rewrite bool_decide_eq_false_2 by lia.
Qed.

Section read_var_len.

Variable tail : list Z.

(** The loop with [cnt] iterations left, on a run [front] of bytes that
    all have the high bit set. *)
Lemma read_var_len_loop_spec (front : list Z) :
  Forall (fun b => 127 < b) front ->
  forall (cnt : nat) (acc : list Z) (f : File),
  closed f = false ->
  (forall b, (length front < cnt)%nat -> b <= 127 ->
     remaining f = front ++ b :: tail ->
     read_var_len_loop cnt acc f =
       (Ok (acc ++ front ++ [b]), advance (length front + 1) f)) /\
  (length front = cnt -> remaining f = front ++ tail ->
     read_var_len_loop cnt acc f = (Ok (acc ++ front), advance cnt f)) /\
  ((length front < cnt)%nat -> remaining f = front ->
     read_var_len_loop cnt acc f = (Raise StructError, advance (length front) f)).
Proof.
  induction 1 as [|c front Hc Hfront IH]; intros cnt acc f Hf.
  - split; [|split].
    + intros b Hlen Hb Hrem. destruct cnt as [|cnt]; [simpl in Hlen; lia|].
      simpl. unfold bind. rewrite (read_1_cons f b tail) by done.
      unfold lift, ret. simpl. by rewrite bool_decide_eq_true_2.
    + intros <- _. simpl. unfold ret. by rewrite app_nil_r, advance_0.
    + intros Hlen Hrem. destruct cnt as [|cnt]; [simpl in Hlen; lia|].
      simpl. unfold bind. by rewrite read_1_nil.
  - assert (Hf' : closed (advance 1 f) = false) by done.
    split; [|split].
    + intros b Hlen Hb Hrem. destruct cnt as [|cnt]; [simpl in Hlen; lia|].
      rewrite (read_var_len_loop_continue cnt acc f c (front ++ b :: tail)) by done.
      destruct (IH cnt (acc ++ [c]) (advance 1 f) Hf') as (IH1 & _ & _).
      rewrite (IH1 b); [| simpl in Hlen; lia | done |].
      * rewrite advance_advance, <- !app_assoc. done.
      * by rewrite remaining_advance, Hrem.
    + intros Hlen Hrem. destruct cnt as [|cnt]; [simpl in Hlen; lia|].
      rewrite (read_var_len_loop_continue cnt acc f c (front ++ tail)) by done.
      destruct (IH cnt (acc ++ [c]) (advance 1 f) Hf') as (_ & IH2 & _).
      rewrite IH2; [| simpl in Hlen; lia |].
      * rewrite advance_advance, <- !app_assoc. done.
      * by rewrite remaining_advance, Hrem.
    + intros Hlen Hrem. destruct cnt as [|cnt]; [simpl in Hlen; lia|].
      rewrite (read_var_len_loop_continue cnt acc f c front) by done.
      destruct (IH cnt (acc ++ [c]) (advance 1 f) Hf') as (_ & _ & IH3).
      rewrite IH3; [| simpl in Hlen; lia |].
      * rewrite advance_advance. done.
      * by rewrite remaining_advance, Hrem.
Qed.

End read_var_len.

(** C7 (as the code has it).  [__read_var_len] reads one byte at a time,
    at most four, and stops after the first byte whose high bit is clear.
    On an open stream whose unread part starts with a run [front] of
    bytes with the high bit set:
    - a terminating byte within the first four bytes ends the read, and
      the value of the bytes read is returned;
    - after four bytes with the high bit set the read ends as well and
      the value of these four bytes is returned, no error is raised and
      the rest of the stream is left unread;
    - the only failure is the end of the stream before either happened,
      the [struct.error] of unpacking an empty read. *)
Theorem read_var_len_spec (f : File) (front tail : list Z) :
  closed f = false ->
  Forall (fun b => 127 < b) front ->
  (forall b, (length front < 4)%nat -> b <= 127 ->
     remaining f = front ++ b :: tail ->
     read_var_len f =
       (Ok (MidiParser_variable_len (front ++ [b])), advance (length front + 1) f)) /\
  (length front = 4%nat -> remaining f = front ++ tail ->
     read_var_len f = (Ok (MidiParser_variable_len front), advance 4 f)) /\
  ((length front < 4)%nat -> remaining f = front ->
     read_var_len f = (Raise StructError, advance (length front) f)).
Proof.
  intros Hf Hfront.
  destruct (read_var_len_loop_spec tail front Hfront 4 [] f Hf) as (H1 & H2 & H3).
  unfold read_var_len, bind.
  split; [|split].
  - intros b Hlen Hb Hrem. by rewrite (H1 b).
  - intros Hlen Hrem. by rewrite H2.
  - intros Hlen Hrem. by rewrite H3.
Qed.

Lemma read_var_len_spec_witness :
  read_var_len (open_bytes [205; 193; 112; 153]) =
    (Ok 1270000, mkFile [205; 193; 112; 153] 3 false) /\
  read_var_len (open_bytes [255; 255; 255; 255; 127]) =
    (Ok 268435455, mkFile [255; 255; 255; 255; 127] 4 false) /\
  read_var_len (open_bytes [129; 128]) =
    (Raise StructError, mkFile [129; 128] 2 false).
Proof.
  assert (Hhi : forall l : list Z, forallb (Z.ltb 127) l = true ->
                                   Forall (fun b => 127 < b) l).
  { intros l H. apply Forall_forall. intros b Hb.
    rewrite forallb_forall in H. apply Z.ltb_lt, H. by apply list_elem_of_In. }
  split; [|split].
  - apply (proj1 (read_var_len_spec (open_bytes [205; 193; 112; 153])
                    [205; 193] [153] eq_refl (Hhi [205; 193] eq_refl)) 112);
      [simpl; lia | lia | reflexivity].
  - apply (proj1 (proj2 (read_var_len_spec (open_bytes [255; 255; 255; 255; 127])
                    [255; 255; 255; 255] [127] eq_refl
                    (Hhi [255; 255; 255; 255] eq_refl))));
      reflexivity.
  - apply (proj2 (proj2 (read_var_len_spec (open_bytes [129; 128])
                    [129; 128] [] eq_refl (Hhi [129; 128] eq_refl))));
      [simpl; lia | reflexivity].
Defined.

(** C7, counterexample to the claim as stated: five bytes with the high
    bit set.  The decoder raises nothing; it returns 0x0FFFFFFF from the
    first four bytes and leaves the fifth unread. *)
Lemma read_var_len_unterminated_run :
  read_var_len (open_bytes [255; 255; 255; 255; 255]) =
    (Ok 268435455, mkFile [255; 255; 255; 255; 255] 4 false) /\
  ~ (exists e, (read_var_len (open_bytes [255; 255; 255; 255; 255])).1 = Raise e).
Proof.
  split; [reflexivity|]. intros [e He]. vm_compute in He. discriminate He.
Qed.

(** ** Serialisation of events *)

Lemma bytes_Ok (l l' : list Z) : bytes l = Ok l' -> l' = l /\ Forall is_byte l.
Proof. unfold bytes. case_bool_decide; [by intros [= <-] | done]. Qed.

Lemma rmap_bytes_Ok (ls ls' : list (list Z)) :
  rmap bytes ls = Ok ls' -> ls' = ls /\ Forall (fun l => bytes l = Ok l) ls.
Proof.
  revert ls'. induction ls as [|l ls IH]; intros ls'; simpl.
  - intros [= <-]. by split.
  - destruct (bytes l) as [l'| |] eqn:Hl; simpl; [|done..].
    destruct (rmap bytes ls) as [ls''| |]; simpl; [|done..].
    intros [= <-]. apply bytes_Ok in Hl as [-> Hl].
    destruct (IH ls'' eq_refl) as [-> HF]. split; [done|].
    constructor; [|done]. unfold bytes. by rewrite bool_decide_eq_true_2.
Qed.

(** When [to_hex] returns, it returns the pieces of [self.event] joined,
    and [get_delta_time] returns the first piece. *)
Lemma to_hex_Ok (e : Event) (h : list Z) :
  to_hex e = Ok h ->
  h = concat (event e) /\
  forall p ps, event e = p :: ps -> get_delta_time e = Ok p.
Proof.
  unfold to_hex, get_delta_time.
  destruct (rmap bytes (event e)) as [ls| |] eqn:Hls; simpl; [|done..].
  intros [= <-]. apply rmap_bytes_Ok in Hls as [-> HF]. split; [done|].
  intros p ps Hev. rewrite Hev in *. by inversion HF.
Qed.

(** ** Running status *)

Lemma running_status_fst (events : list Event) :
  running_status events = (st <- running_status_state events ;; Ok st.1).
Proof.
  destruct events as [|e0 rest]; [done|]. simpl.
  by destruct (to_hex e0).
Qed.

Lemma running_status_loop_app (st : list Z * Z) (l1 l2 : list Event) :
  running_status_loop st (l1 ++ l2) =
  (st' <- running_status_loop st l1 ;; running_status_loop st' l2).
Proof.
  revert st. induction l1 as [|e l1 IH]; intros st; simpl; [done|].
  destruct (running_status_step st e); simpl; [apply IH | done..].
Qed.

Lemma running_status_step_status (st st' : list Z * Z) (e : Event) :
  running_status_step st e = Ok st' -> st'.2 = status e.
Proof.
  unfold running_status_step. destruct st as [bs cur].
  match goal with |- context [rbind ?r _] => destruct r end; simpl; [|done..].
  by intros [= <-].
Qed.

(** The accumulator after a non-empty list is the status of its last event. *)
Lemma running_status_state_last (es : list Event) (prev : Event) (st : list Z * Z) :
  running_status_state (es ++ [prev]) = Ok st -> st.2 = status prev.
Proof.
  destruct es as [|e0 es]; simpl.
  - destruct (to_hex prev); simpl; [|done..]. by intros [= <-].
  - destruct (to_hex e0) as [b0| |]; simpl; [|done..].
    rewrite running_status_loop_app.
    destruct (running_status_loop (b0, status e0) es) as [st1| |]; simpl; [|done..].
    destruct (running_status_step st1 prev) as [st2| |] eqn:Hstep; simpl; [|done..].
    intros [= <-]. by apply running_status_step_status in Hstep.
Qed.

(** Processing one more event is one more step of the loop. *)
Lemma running_status_state_step (es : list Event) (prev e : Event) :
  running_status_state (es ++ [prev; e]) =
  (st <- running_status_state (es ++ [prev]) ;; running_status_step st e).
Proof.
  replace (es ++ [prev; e]) with ((es ++ [prev]) ++ [e]) by by rewrite <- app_assoc.
  destruct (es ++ [prev]) as [|e0 rest] eqn:Hl; [by destruct es|]. simpl.
  destruct (to_hex e0) as [b0| |]; simpl; [|done..].
  rewrite running_status_loop_app.
  destruct (running_status_loop (b0, status e0) rest) as [st1| |]; simpl; [|done..].
  by destruct (running_status_step st1 e).
Qed.

(** A constructed event with a status below 240 serialises as
    VLQ(delta_time), status byte, payload; SysEx and Meta events have a
    status of 240 or more. *)
Lemma constructed_shape (e : Event) :
  constructed e ->
  0 <= delta_time e /\
  ((cls e = SysExEventCls \/ cls e = MetaEventCls) -> 240 <= status e) /\
  (cls e = MidiEventCls -> status e < 240) /\
  (status e < 240 ->
     event e = [variable_len (delta_time e); [status e]; data e]).
Proof.
  intros [(dt & st & ch & d & H) | [(dt & st & d & H) | [(et & dt & d & H) | (dt & st & d & H)]]].
  - apply MidiEvent_init_Ok in H as (Hch & Hst & _ & _ & Hdt & ->). simpl.
    apply midi_keys_spec in Hst.
    split; [lia|]. split; [by intros [|]|]. split; [lia | done].
  - apply SysExEvent_init_Ok in H as (Hst & Hdt & ->). simpl.
    rewrite !elem_of_cons, elem_of_nil in Hst.
    split; [lia|]. split; [lia|]. split; [done | lia].
  - apply MetaEvent_init_Ok in H as (_ & Hdt & ->). simpl.
    split; [lia|]. split; [lia|]. split; [done | lia].
  - apply Event_init_Ok in H as (Hdt & ->). simpl.
    split; [lia|]. split; [by intros [|]|]. done.
Qed.

Lemma drop_status_byte (vlq : list Z) (s : Z) (d : list Z) :
  drop (length vlq + 1) (vlq ++ s :: d) = d.
Proof. induction vlq as [|b vlq IH]; simpl; [done | exact IH]. Qed.

(** A track built with running status on holds the bytes of
    [running_status], and is written as "MTrk", their number on four
    bytes and the bytes themselves. *)
Lemma Track_init_running_status (events : list Event) (t : Track) :
  Track_init events true = Ok t ->
  running_status events = Ok (trk_bytes t) /\
  forall h, Track_to_hex t = Ok h ->
    h = MTrk ++ be_bytes 4 (len (trk_bytes t)) ++ trk_bytes t.
Proof.
  unfold Track_init, length_and_bytes. destruct events as [|e0 rest]; [done|].
  destruct (running_status (e0 :: rest)) as [bs| |]; simpl; [|done..].
  intros [= <-]. split; [done|]. intros h.
  unfold Track_to_hex, pack_L. simpl.
  case_bool_decide; simpl; [by intros [= <-] | done].
Qed.

(** C4.  [Track.running_status], whose bytes are the event stream of
    every track built with running-status mode on:
    - a track of one event is that event in full;
    - whatever came before, the bytes appended for an event [e] that
      follows an event [prev] depend on [prev] only through its status:
      if [status prev = status e] and [status e < 240] they are
      VLQ(delta_time) followed by the payload, the status byte being
      left out, and otherwise [e] in full; since this holds after every
      prefix [es], the accumulator is the status of the immediately
      preceding event whether or not that one was abbreviated;
    - in full, an event with a status below 240 is VLQ(delta_time), the
      status byte and the payload;
    - SysEx and Meta events have a status of 240 or more and are
      therefore always written in full. *)
Theorem running_status_spec :
  (forall events t, Track_init events true = Ok t ->
     running_status events = Ok (trk_bytes t)) /\
  (forall e, running_status [e] = to_hex e) /\
  (forall es prev e bs h,
     constructed e -> to_hex e = Ok h ->
     running_status (es ++ [prev]) = Ok bs ->
     running_status (es ++ [prev; e]) =
       Ok (bs ++ if bool_decide (status prev = status e /\ status e < 240)
                 then variable_len (delta_time e) ++ data e
                 else h)) /\
  (forall e h, constructed e -> to_hex e = Ok h -> status e < 240 ->
     h = variable_len (delta_time e) ++ [status e] ++ data e) /\
  (forall e prev, constructed e ->
     cls e = SysExEventCls \/ cls e = MetaEventCls ->
     bool_decide (status prev = status e /\ status e < 240) = false).
Proof.
  split; [|split; [|split; [|split]]].
  - intros events t Ht. by apply Track_init_running_status.
  - intros e. rewrite running_status_fst. simpl. by destruct (to_hex e).
  - intros es prev e bs h He Hh Hbs.
    rewrite running_status_fst in Hbs |- *.
    rewrite running_status_state_step.
    destruct (running_status_state (es ++ [prev])) as [[b cur]| |] eqn:Hst;
      simpl in Hbs; [|done..].
    injection Hbs as ->.
    apply running_status_state_last in Hst. simpl in Hst. subst cur.
    simpl. rewrite Hh. simpl.
    destruct (to_hex_Ok e h Hh) as [-> Hdt].
    destruct (constructed_shape e He) as (_ & _ & _ & Hshape).
    destruct (bool_decide (status prev = status e)) eqn:Heq;
      [apply bool_decide_eq_true in Heq | apply bool_decide_eq_false in Heq];
    (destruct (bool_decide (status e < 240)) eqn:Hlt;
      [apply bool_decide_eq_true in Hlt | apply bool_decide_eq_false in Hlt]);
    simpl.
    + rewrite bool_decide_eq_true_2 by done.
      rewrite (Hdt _ _ (Hshape Hlt)). simpl.
      rewrite (Hshape Hlt). simpl.
      by rewrite app_nil_r, drop_status_byte.
    + rewrite bool_decide_eq_false_2 by tauto. done.
    + rewrite bool_decide_eq_false_2 by tauto. done.
    + rewrite bool_decide_eq_false_2 by tauto. done.
  - intros e h He Hh Hlt.
    destruct (to_hex_Ok e h Hh) as [-> _].
    destruct (constructed_shape e He) as (_ & _ & _ & Hshape).
    rewrite (Hshape Hlt). simpl. by rewrite app_nil_r.
  - intros e prev He Hcls.
    destruct (constructed_shape e He) as (_ & Hge & _).
    specialize (Hge Hcls). apply bool_decide_eq_false_2. lia.
Qed.

Lemma running_status_spec_witness :
  running_status [example_note_on; example_note_on_again] =
    Ok [205; 193; 112; 153; 60; 127; 127; 60; 0] /\
  running_status [example_note_on; example_end_of_track] =
    Ok [205; 193; 112; 153; 60; 127; 0; 255; 47; 0].
Proof.
  pose proof running_status_spec as (_ & _ & Hstep & _).
  split.
  - refine (Hstep [] example_note_on example_note_on_again
              [205; 193; 112; 153; 60; 127] [127; 153; 60; 0] _ eq_refl eq_refl).
    left. by exists 127, 144, 9, [60; 0].
  - refine (Hstep [] example_note_on example_end_of_track
              [205; 193; 112; 153; 60; 127] [0; 255; 47; 0] _ eq_refl eq_refl).
    right. right. left. by exists 47, 0, [].
Defined.

(** ** The header chunk in the decoder *)

Lemma bind_Ok {A B} (m : M A) (k : A -> M B) (f f' : File) (a : A) :
  m f = (Ok a, f') -> bind m k f = k a f'.
Proof. unfold bind. by intros ->. Qed.

Lemma bind_Raise {A B} (m : M A) (k : A -> M B) (f f' : File) (e : exn) :
  m f = (Raise e, f') -> bind m k f = (Raise e, f').
Proof. unfold bind. by intros ->. Qed.

(** Reading [size] bytes when at least that many are left. *)
Lemma read_exact (size : Z) (f : File) (front tl : list Z) :
  closed f = false -> remaining f = front ++ tl ->
  size = len front ->
  read size f = (Ok front, advance (length front) f).
Proof.
  unfold read, remaining, len. intros -> -> ->.
  rewrite bool_decide_eq_false_2 by lia.
  by rewrite Nat2Z.id, take_app_length.
Qed.

Lemma read_8_prologue (p8 rest : list Z) :
  length p8 = 8%nat ->
  read 8 (open_bytes (p8 ++ rest)) = (Ok p8, mkFile (p8 ++ rest) 8 false).
Proof.
  intros Hlen.
  rewrite (read_exact 8 _ p8 rest); [|done|done|unfold len; lia].
  unfold advance. simpl. by rewrite Hlen.
Qed.

(** A stream that starts with the magic is refused. *)
Lemma read_header_MThd (rest : list Z) :
  (4 <= length rest)%nat ->
  read_header (open_bytes (MThd ++ rest)) =
    (Raise (ValueError "Wrong format of file"), mkFile (MThd ++ rest) 8 false).
Proof.
  intros Hlen. unfold read_header.
  replace (MThd ++ rest) with ((MThd ++ take 4 rest) ++ drop 4 rest)
    by by rewrite <- app_assoc, take_drop.
  erewrite bind_Ok; cycle 1.
  { apply read_8_prologue.
    rewrite length_app, length_take. change (length MThd) with 4%nat. lia. }
  rewrite bool_decide_eq_false_2 by done.
  by rewrite (bool_decide_eq_true_2 (take 4 (MThd ++ take 4 rest) = MThd)).
Qed.

(** A stream that starts with eight bytes other than the magic is
    accepted, and the header is built from the six bytes that follow. *)
Lemma read_header_not_MThd (p8 tail : list Z) (a1 a0 b1 b0 c1 c0 : Z) :
  length p8 = 8%nat -> take 4 p8 <> MThd ->
  let bs := p8 ++ [a1; a0; b1; b0; c1; c0] ++ tail in
  read_header (open_bytes bs) =
    (Header_init (a1 * 256 + a0) (b1 * 256 + b0) (c1 * 256 + c0),
     mkFile bs 14 false).
Proof.
  intros Hlen Hmagic bs. unfold read_header. subst bs.
  erewrite bind_Ok; [|by apply read_8_prologue].
  rewrite bool_decide_eq_false_2 by (intros ->; done).
  rewrite bool_decide_eq_false_2 by done. cbn [negb andb].
  erewrite bind_Ok; cycle 1.
  { apply (read_exact 6 _ [a1; a0; b1; b0; c1; c0] tail); [done| |done].
    unfold remaining. simpl. rewrite <- Hlen. by rewrite drop_app_length. }
  unfold bind, lift, ret, advance. simpl.
  by destruct (Header_init _ _ _).
Qed.

(** C2 (what the code does instead).  The test of [__read_header] is
    [mthd and mthd[:4] != b'MThd']: a stream that starts with the magic
    "MThd" is refused with [ValueError("Wrong format of file")] without
    its six field bytes being read, whereas a stream that starts with
    eight other bytes is accepted and the header is built from the
    format, track count and resolution that follow.  An empty stream is
    refused as well. *)
Theorem read_header_magic_polarity (rest : list Z) :
  ((4 <= length rest)%nat ->
   read_header (open_bytes (MThd ++ rest)) =
     (Raise (ValueError "Wrong format of file"), mkFile (MThd ++ rest) 8 false)) /\
  (forall p8 tail a1 a0 b1 b0 c1 c0,
     length p8 = 8%nat -> take 4 p8 <> MThd ->
     (read_header (open_bytes (p8 ++ [a1; a0; b1; b0; c1; c0] ++ tail))).1 =
       Header_init (a1 * 256 + a0) (b1 * 256 + b0) (c1 * 256 + c0)) /\
  (read_header (open_bytes [])).1 = Raise (ValueError "Wrong format of file").
Proof.
  split; [|split].
  - apply read_header_MThd.
  - intros p8 tail a1 a0 b1 b0 c1 c0 Hlen Hmagic.
    by rewrite read_header_not_MThd.
  - reflexivity.
Qed.

Lemma read_header_magic_polarity_witness :
  (read_header (open_bytes [77; 84; 104; 100; 0; 0; 0; 6; 0; 0; 0; 1; 0; 96])).1 =
    Raise (ValueError "Wrong format of file") /\
  (read_header (open_bytes [88; 88; 88; 88; 0; 0; 0; 6; 0; 0; 0; 1; 0; 96])).1 =
    Ok (mkHeader MThd 6 0 1 96).
Proof.
  split.
  - assert (Hlen : (4 <= length [0; 0; 0; 6; 0; 0; 0; 1; 0; 96])%nat) by (simpl; lia).
    exact (f_equal fst
             (proj1 (read_header_magic_polarity [0; 0; 0; 6; 0; 0; 0; 1; 0; 96]) Hlen)).
  - assert (Hmagic : take 4 [88; 88; 88; 88; 0; 0; 0; 6] <> MThd) by discriminate.
    exact (proj1 (proj2 (read_header_magic_polarity []))
             [88; 88; 88; 88; 0; 0; 0; 6] [] 0 0 0 1 0 96 eq_refl Hmagic).
Defined.

(** ** Decoding a serialised container *)

Lemma Header_init_Ok (ff nt pq : Z) (h : Header) :
  Header_init ff nt pq = Ok h -> h = mkHeader MThd 6 ff nt pq.
Proof.
  unfold Header_init.
  repeat match goal with |- context [if ?b then _ else _] => destruct b end;
    by intros [= <-].
Qed.

(** The header chunk starts with the magic and has ten more bytes. *)
Lemma Header_to_hex_MThd (ff nt pq : Z) (h : Header) (hb : list Z) :
  Header_init ff nt pq = Ok h -> Header_to_hex h = Ok hb ->
  exists params, hb = MThd ++ params /\ length params = 10%nat.
Proof.
  intros ->%Header_init_Ok.
  unfold Header_to_hex, pack_LHHH, pack_L, pack_H. cbn [mthd hdr_length file_format ntracks ppqn].
  repeat case_bool_decide; cbn [rbind]; try done.
  intros [= <-]. eexists. split; [done|]. reflexivity.
Qed.

(** C1 (what the code does instead).  Whatever the container, built
    from a header that [Header.__init__] returned and a non-empty list of
    tracks, with running status on or off: the decoder refuses the bytes
    [MidiFormat.to_hex] produced for it.  They start with "MThd", and
    [__read_header] raises [ValueError("Wrong format of file")] exactly
    then; nothing beyond the first eight bytes is read and no event is
    reproduced. *)
Theorem read_all_of_to_hex_fails
    (ff nt pq : Z) (h : Header) (ts : list Track) (c : MidiFormat) (bs : list Z) :
  Header_init ff nt pq = Ok h ->
  MidiFormat_init (Some h) ts = Ok c ->
  MidiFormat_to_hex c = Ok bs ->
  read_all (open_bytes bs) =
    (Raise (ValueError "Wrong format of file"), mkFile bs 8 false).
Proof.
  intros Hh Hc Hbs.
  assert (header c = h) as Hhc.
  { unfold MidiFormat_init in Hc. destruct ts; [done|]. by injection Hc as <-. }
  unfold MidiFormat_to_hex in Hbs. rewrite Hhc in Hbs.
  destruct (Header_to_hex h) as [hb| |] eqn:Hhb; simpl in Hbs; [|done..].
  destruct (rmap Track_to_hex (tracks c)) as [tbs| |]; simpl in Hbs; [|done..].
  injection Hbs as <-.
  destruct (Header_to_hex_MThd ff nt pq h hb Hh Hhb) as (params & -> & Hlen).
  rewrite <- app_assoc. unfold read_all.
  erewrite bind_Raise; [done|].
  apply read_header_MThd. rewrite length_app. lia.
Qed.

Example example_events_constructed :
  MidiEvent_init 1270000 144 9 [60; 127] = Ok example_note_on /\
  MidiEvent_init 127 144 9 [60; 0] = Ok example_note_on_again /\
  MidiEvent_init 127 128 9 [60; 0] = Ok example_note_off /\
  MetaEvent_init 47 0 [] = Ok example_end_of_track.
Proof. repeat split. Qed.

Example example_track_constructed :
  Track_init example_events true = Ok example_track.
Proof. reflexivity. Qed.

Example example_file_serialised :
  (h <- Header_init 0 1 96 ;;
   c <- MidiFormat_init (Some h) [example_track] ;;
   MidiFormat_to_hex c) = Ok example_file.
Proof. reflexivity. Qed.

Lemma read_all_of_to_hex_fails_witness :
  read_all (open_bytes example_file) =
    (Raise (ValueError "Wrong format of file"), mkFile example_file 8 false).
Proof.
  exact (read_all_of_to_hex_fails 0 1 96 (mkHeader MThd 6 0 1 96) [example_track]
           (mkMidiFormat (mkHeader MThd 6 0 1 96) [example_track]) example_file
           eq_refl eq_refl eq_refl).
Defined.

(** With the magic overwritten the same file is decoded, and the events
    come back as they were built. *)
Example example_file_decoded_without_magic :
  (read_all (open_bytes (88 :: drop 1 example_file))).1 =
    Ok (mkMidiFormat (mkHeader MThd 6 0 1 96) [example_track]).
Proof. vm_compute. reflexivity. Qed.

(** ** The bound of the decoder's loop is never reached

    [OutOfFuel] stands for an unrolling of the [while] loop of
    [__read_track] that was cut short.  Constructors and serialisation
    have no unbounded loop; every iteration of the [while] loop reads at
    least one byte more than it puts back; and [read_track] gives the
    loop more fuel than the stream has bytes.  So [read_all] never
    answers [OutOfFuel]: its outcome is always the return value or the
    exception of the Python method. *)

Lemma total_Ok {A} (a : A) : total (Ok a).
Proof. done. Qed.

Lemma total_Raise {A} (e : exn) : total (@Raise A e).
Proof. done. Qed.

Lemma total_rbind {A B} (r : result A) (k : A -> result B) :
  total r -> (forall a, total (k a)) -> total (rbind r k).
Proof. intros Hr Hk. destruct r; simpl; [apply Hk | done | done]. Qed.

Lemma total_rmap {A B} (f : A -> result B) (l : list A) :
  (forall a, total (f a)) -> total (rmap f l).
Proof.
  intros Hf. induction l as [|a l IH]; simpl; [done|].
  apply total_rbind; [apply Hf|]. intros b.
  apply total_rbind; [apply IH | done].
Qed.

Lemma total_if {A} (b : bool) (r1 r2 : result A) :
  total r1 -> total r2 -> total (if b then r1 else r2).
Proof. by destruct b. Qed.

Lemma total_bytes (l : list Z) : total (bytes l).
Proof. unfold bytes. by apply total_if. Qed.

Lemma total_to_hex (e : Event) : total (to_hex e).
Proof.
  unfold to_hex. apply total_rbind; [|done].
  apply total_rmap, total_bytes.
Qed.

Lemma total_get_delta_time (e : Event) : total (get_delta_time e).
Proof. unfold get_delta_time. destruct (event e); [done | apply total_bytes]. Qed.

Lemma total_Event_init (c : EventClass) (dt st : Z) (d : list Z) :
  total (Event_init c dt st d).
Proof. unfold Event_init. by apply total_if. Qed.

Lemma total_py_max (d : list Z) : total (py_max d).
Proof. by destruct d. Qed.

Lemma total_MidiEvent_init (dt st ch : Z) (d : list Z) :
  total (MidiEvent_init dt st ch d).
Proof.
  unfold MidiEvent_init. repeat (apply total_if; [done|]).
  apply total_rbind; [apply total_py_max|]. intros m.
  apply total_if; [done | apply total_Event_init].
Qed.

Lemma total_SysExEvent_init (dt st : Z) (d : list Z) :
  total (SysExEvent_init dt st d).
Proof.
  unfold SysExEvent_init. apply total_if; [done|].
  apply total_rbind; [apply total_Event_init | done].
Qed.

Lemma total_MetaEvent_init (et dt : Z) (d : list Z) :
  total (MetaEvent_init et dt d).
Proof.
  unfold MetaEvent_init. apply total_if; [done|].
  apply total_rbind; [apply total_Event_init | done].
Qed.

Lemma total_Header_init (ff nt pq : Z) : total (Header_init ff nt pq).
Proof. unfold Header_init. by repeat (apply total_if; [done|]). Qed.

Lemma total_running_status_step (st : list Z * Z) (e : Event) :
  total (running_status_step st e).
Proof.
  unfold running_status_step. destruct st as [bs cur].
  apply total_rbind; [|done]. apply total_if.
  - apply total_rbind; [apply total_to_hex|]. intros h.
    apply total_rbind; [apply total_get_delta_time | done].
  - apply total_rbind; [apply total_to_hex | done].
Qed.

Lemma total_running_status_loop (st : list Z * Z) (evs : list Event) :
  total (running_status_loop st evs).
Proof.
  revert st. induction evs as [|e evs IH]; intros st; simpl; [done|].
  apply total_rbind; [apply total_running_status_step | apply IH].
Qed.

Lemma total_running_status (evs : list Event) : total (running_status evs).
Proof.
  unfold running_status. destruct evs as [|e0 rest]; [done|].
  apply total_rbind; [apply total_to_hex|]. intros bs.
  apply total_rbind; [apply total_running_status_loop | done].
Qed.

Lemma total_Track_init (evs : list Event) (mode : bool) : total (Track_init evs mode).
Proof.
  unfold Track_init, length_and_bytes. destruct evs as [|e0 rest]; [done|].
  apply total_rbind; [|done]. apply total_rbind; [|done].
  destruct mode; [apply total_running_status|].
  apply total_rbind; [|done]. apply total_rmap, total_to_hex.
Qed.

Lemma total_MidiFormat_init (h : option Header) (ts : list Track) :
  total (MidiFormat_init h ts).
Proof. unfold MidiFormat_init. destruct h; [|done]. by destruct ts. Qed.

Lemma total_unpack_B (bs : list Z) : total (unpack_B bs).
Proof. unfold unpack_B. by destruct bs as [|? [|? ?]]. Qed.

Lemma total_unpack_HHH (bs : list Z) : total (unpack_HHH bs).
Proof.
  unfold unpack_HHH.
  by destruct bs as [|? [|? [|? [|? [|? [|? [|? ?]]]]]]].
Qed.

Lemma unread_eq (f : File) :
  unread f = Z.max 0 (Z.of_nat (length (content f)) - Z.of_nat (pos f)).
Proof. unfold unread, remaining. rewrite length_drop. lia. Qed.

Lemma consumes_weaken {A} (k k' : Z) (m : M A) :
  consumes k m -> k' <= k -> consumes k' m.
Proof.
  intros Hm Hk f. destruct (Hm f) as [Ht Hok]. split; [done|].
  intros a Ha. destruct (Hok a Ha). split; [done | lia].
Qed.

Lemma consumes_ret {A} (a : A) : consumes 0 (ret a).
Proof. intros f. simpl. split; [done|]. intros _ _. split; [done | lia]. Qed.

Lemma consumes_lift {A} (r : result A) : total r -> consumes 0 (lift r).
Proof. intros Hr f. simpl. split; [done|]. intros _ _. split; [done | lia]. Qed.

Lemma consumes_bind {A B} (j k n : Z) (m : M A) (c : A -> M B) :
  consumes j m -> (forall a, consumes k (c a)) -> n <= j + k ->
  consumes n (bind m c).
Proof.
  intros Hm Hc Hn f. unfold bind. destruct (Hm f) as [Ht Hok].
  destruct (m f) as [[a| |] f1]; simpl in *; [|done..].
  destruct (Hok a eq_refl) as [Hcont Hun].
  destruct (Hc a f1) as [Ht' Hok']. split; [done|].
  intros b Hb. destruct (Hok' b Hb) as [Hcont' Hun'].
  split; [congruence | lia].
Qed.

Lemma consumes_if {A} (k : Z) (b : bool) (m1 m2 : M A) :
  consumes k m1 -> consumes k m2 -> consumes k (if b then m1 else m2).
Proof. by destruct b. Qed.

Lemma consumes_read (size : Z) : consumes 0 (read size).
Proof.
  intros f. unfold read. destruct (closed f); simpl; [done|].
  split; [done|]. intros _ _. split; [done|].
  rewrite !unread_eq. simpl. lia.
Qed.

(** Reading one byte and unpacking it: if that returns, one byte was
    there and has been consumed. *)
Lemma consumes_read_unpack {B} (k n : Z) (c : Z -> M B) :
  (forall b, consumes k (c b)) -> n <= 1 + k ->
  consumes n (bind (read 1) (fun bs => bind (lift (unpack_B bs)) c)).
Proof.
  intros Hc Hn f. unfold bind, read, lift.
  destruct (closed f) eqn:Hf; simpl; [done|].
  change (Z.to_nat 1) with 1%nat.
  destruct (drop (pos f) (content f)) as [|b tl] eqn:Hrest; simpl; [done|].
  rewrite ?take_0. simpl.
  set (f1 := mkFile (content f) (pos f + 1) false).
  destruct (Hc b f1) as [Ht Hok]. split; [done|].
  intros a Ha. destruct (Hok a Ha) as [Hcont Hun]. split; [done|].
  assert (unread f1 + 1 = unread f); [|lia].
  rewrite !unread_eq. subst f1. simpl.
  assert (length (drop (pos f) (content f)) = S (length tl)) as Hl
    by by rewrite Hrest.
  rewrite length_drop in Hl. lia.
Qed.

Lemma consumes_seek_back : consumes (-1) (seek_cur (-1)).
Proof.
  intros f. unfold seek_cur. destruct (closed f); simpl; [done|].
  case_bool_decide; simpl; [done|]. split; [done|]. intros _ _. split; [done|].
  rewrite !unread_eq. simpl. lia.
Qed.

Lemma consumes_read_var_len_loop (cnt : nat) (byte : list Z) :
  consumes (if cnt is O then 0 else 1) (read_var_len_loop cnt byte).
Proof.
  revert byte. induction cnt as [|cnt IH]; intros byte; simpl.
  - apply consumes_ret.
  - apply (consumes_read_unpack 0); [|lia]. intros b.
    apply consumes_if; [apply consumes_ret|].
    eapply consumes_weaken; [apply IH|]. destruct cnt; lia.
Qed.

Lemma consumes_read_var_len : consumes 1 read_var_len.
Proof.
  unfold read_var_len.
  apply (consumes_bind 1 0); [apply (consumes_read_var_len_loop 4) | | lia].
  intros byte. apply consumes_ret.
Qed.

Lemma consumes_read_midi_event_data (st : Z) : consumes 0 (read_midi_event_data st).
Proof.
  unfold read_midi_event_data.
  apply (consumes_bind 0 0); [apply consumes_read | | lia].
  intros d. apply consumes_ret.
Qed.

Lemma consumes_read_sysex_event_data : consumes 0 read_sysex_event_data.
Proof.
  unfold read_sysex_event_data.
  apply (consumes_bind 1 0); [apply consumes_read_var_len | | lia]. intros l.
  apply (consumes_bind 0 0); [apply consumes_read | | lia]. intros d.
  apply consumes_ret.
Qed.

Lemma consumes_read_meta_event_data : consumes 0 read_meta_event_data.
Proof.
  unfold read_meta_event_data.
  apply (consumes_read_unpack 0); [|lia]. intros et.
  apply (consumes_bind 1 0); [apply consumes_read_var_len | | lia]. intros l.
  apply (consumes_bind 0 0); [apply consumes_read | | lia]. intros d.
  apply consumes_ret.
Qed.

(** Decoding one event consumes at least one byte: the delta time and
    the status byte are two bytes or more, and running status puts one
    byte back. *)
Lemma consumes_read_event (current_event : Event) :
  consumes 1 (read_event current_event).
Proof.
  unfold read_event.
  apply (consumes_bind 1 0); [apply consumes_read_var_len | | lia]. intros dt.
  apply (consumes_read_unpack (-1)); [|lia]. intros st.
  repeat apply consumes_if.
  - apply (consumes_bind 0 (-1)); [apply consumes_read_midi_event_data | | lia].
    intros more.
    apply (consumes_bind (-1) 0); [apply consumes_seek_back | | lia]. intros _.
    apply consumes_lift, total_MidiEvent_init.
  - apply (consumes_bind 0 0); [apply consumes_read_midi_event_data | | lia].
    intros d. apply consumes_lift, total_MidiEvent_init.
  - apply (consumes_bind 0 0); [apply consumes_read_meta_event_data | | lia].
    intros [[et l] d]. apply consumes_lift, total_MetaEvent_init.
  - apply (consumes_bind 0 0); [apply consumes_read_sysex_event_data | | lia].
    intros [l d]. apply consumes_lift, total_SysExEvent_init.
Qed.

(** With more fuel than unread bytes the loop ends by itself: on the
    End of Track event, or on the exception of reading past the end. *)
Lemma read_events_fuel (fuel : nat) :
  forall (event : Event) (events : list Event) (f : File),
  unread f < Z.of_nat fuel ->
  total (read_events fuel event events f).1 /\
  forall evs, (read_events fuel event events f).1 = Ok evs ->
    content (read_events fuel event events f).2 = content f /\
    unread (read_events fuel event events f).2 <= unread f.
Proof.
  induction fuel as [|fuel IH]; intros event events f Hfuel.
  - unfold unread in Hfuel. lia.
  - simpl. destruct (is_end_of_track event).
    + simpl. split; [done|]. intros _ _. split; [done | lia].
    + unfold bind. destruct (consumes_read_event event f) as [Ht Hok].
      destruct (read_event event f) as [[ev'| |] f1]; simpl in *; [|done..].
      destruct (Hok ev' eq_refl) as [Hcont Hun].
      destruct (IH ev' (events ++ [ev']) f1) as [Ht' Hok']; [lia|].
      split; [done|]. intros evs Hevs.
      destruct (Hok' evs Hevs) as [Hcont' Hun']. split; [congruence | lia].
Qed.

Lemma consumes_read_track : consumes 0 read_track.
Proof.
  unfold read_track.
  apply (consumes_bind 0 0); [apply consumes_read | | lia]. intros hdr.
  apply consumes_if; [|by apply consumes_lift].
  apply (consumes_bind 0 0); [apply consumes_lift, total_MetaEvent_init | | lia].
  intros dummy.
  apply (consumes_bind 1 0); [apply consumes_read_event | | lia]. intros event.
  apply (consumes_bind 0 0); [| | lia].
  - intros f.
    destruct (read_events_fuel (S (length (content f))) event [event] f)
      as [Ht Hok].
    { rewrite unread_eq. lia. }
    split; [done|]. intros evs Hevs. destruct (Hok evs Hevs). split; [done | lia].
  - intros evs.
    apply (consumes_bind 0 0); [apply consumes_lift, total_Track_init | | lia].
    intros t. apply consumes_ret.
Qed.

Lemma consumes_read_tracks (cnt : nat) (ts : list Track) :
  consumes 0 (read_tracks cnt ts).
Proof.
  revert ts. induction cnt as [|cnt IH]; intros ts; simpl; [apply consumes_ret|].
  apply (consumes_bind 0 0); [apply consumes_read_track | | lia].
  intros t. apply IH.
Qed.

Lemma consumes_read_header : consumes 0 read_header.
Proof.
  unfold read_header.
  apply (consumes_bind 0 0); [apply consumes_read | | lia]. intros magic.
  apply consumes_if; [|by apply consumes_lift].
  apply (consumes_bind 0 0); [apply consumes_read | | lia]. intros bs.
  apply (consumes_bind 0 0); [apply consumes_lift, total_unpack_HHH | | lia].
  intros [[ff nt] pq].
  apply (consumes_bind 0 0); [apply consumes_lift, total_Header_init | | lia].
  intros h. apply consumes_ret.
Qed.

(** [read_all] always returns a container or raises. *)
Lemma read_all_total (f : File) : total (read_all f).1.
Proof.
  assert (H : consumes 0 read_all); [|apply H].
  unfold read_all.
  apply (consumes_bind 0 0); [apply consumes_read_header | | lia]. intros h.
  apply (consumes_bind 0 0); [apply consumes_read_tracks | | lia]. intros ts.
  apply (consumes_bind 0 0); [apply consumes_lift, total_MidiFormat_init | | lia].
  intros c.
  apply (consumes_bind 0 0); [| intros _; apply consumes_ret | lia].
  intros f'. simpl. split; [done|]. intros _ _. split; [done|].
  rewrite !unread_eq. simpl. lia.
Qed.

(** ** The stream is closed by [read_all] only *)

Lemma keeps_closed_ret {A} (a : A) : keeps_closed (ret a).
Proof. done. Qed.

Lemma keeps_closed_lift {A} (r : result A) : keeps_closed (lift r).
Proof. done. Qed.

Lemma keeps_closed_bind {A B} (m : M A) (k : A -> M B) :
  keeps_closed m -> (forall a, keeps_closed (k a)) -> keeps_closed (bind m k).
Proof.
  intros Hm Hk f. unfold bind. specialize (Hm f).
  destruct (m f) as [[a| |] f']; simpl in *; [|done..].
  by rewrite Hk.
Qed.

Lemma keeps_closed_read (size : Z) : keeps_closed (read size).
Proof. intros f. unfold read. by destruct (closed f) eqn:Hf. Qed.

Lemma keeps_closed_seek_cur (offset : Z) : keeps_closed (seek_cur offset).
Proof.
  intros f. unfold seek_cur. destruct (closed f) eqn:Hf; [done|].
  by case_bool_decide.
Qed.

Ltac keeps_closed_step :=
  first
    [ apply keeps_closed_ret
    | apply keeps_closed_lift
    | apply keeps_closed_read
    | apply keeps_closed_seek_cur
    | apply keeps_closed_bind; [|intros ?]
    | match goal with
      | |- keeps_closed (if ?b then _ else _) => destruct b
      | |- keeps_closed (match ?r with (_, _) => _ end) => destruct r
      | H : keeps_closed ?m |- keeps_closed ?m => exact H
      end ].

Lemma keeps_closed_read_var_len_loop (cnt : nat) (byte : list Z) :
  keeps_closed (read_var_len_loop cnt byte).
Proof.
  revert byte. induction cnt as [|cnt IH]; intros byte; simpl;
    repeat keeps_closed_step. apply IH.
Qed.

Lemma keeps_closed_read_var_len : keeps_closed read_var_len.
Proof.
  unfold read_var_len. apply keeps_closed_bind; [|intros ?; apply keeps_closed_ret].
  apply keeps_closed_read_var_len_loop.
Qed.

Lemma keeps_closed_read_header : keeps_closed read_header.
Proof. unfold read_header. repeat keeps_closed_step. Qed.

Lemma keeps_closed_read_midi_event_data (st : Z) :
  keeps_closed (read_midi_event_data st).
Proof. unfold read_midi_event_data. repeat keeps_closed_step. Qed.

Lemma keeps_closed_read_sysex_event_data : keeps_closed read_sysex_event_data.
Proof.
  unfold read_sysex_event_data.
  apply keeps_closed_bind; [apply keeps_closed_read_var_len|intros ?].
  repeat keeps_closed_step.
Qed.

Lemma keeps_closed_read_meta_event_data : keeps_closed read_meta_event_data.
Proof.
  unfold read_meta_event_data.
  do 2 (apply keeps_closed_bind; [repeat keeps_closed_step|intros ?]).
  apply keeps_closed_bind; [apply keeps_closed_read_var_len|intros ?].
  repeat keeps_closed_step.
Qed.

Lemma keeps_closed_read_event (current_event : Event) :
  keeps_closed (read_event current_event).
Proof.
  unfold read_event.
  apply keeps_closed_bind; [apply keeps_closed_read_var_len|intros ?].
  do 2 (apply keeps_closed_bind; [repeat keeps_closed_step|intros ?]).
  destruct (_ && _).
  { apply keeps_closed_bind; [apply keeps_closed_read_midi_event_data|intros ?].
    repeat keeps_closed_step. }
  destruct (negb _).
  { apply keeps_closed_bind; [apply keeps_closed_read_midi_event_data|intros ?].
    repeat keeps_closed_step. }
  destruct (bool_decide _).
  - apply keeps_closed_bind; [apply keeps_closed_read_meta_event_data|intros ?].
    repeat keeps_closed_step.
  - apply keeps_closed_bind; [apply keeps_closed_read_sysex_event_data|intros ?].
    repeat keeps_closed_step.
Qed.

Lemma keeps_closed_read_events (fuel : nat) (event : Event) (events : list Event) :
  keeps_closed (read_events fuel event events).
Proof.
  revert event events. induction fuel as [|fuel IH]; intros event events; simpl.
  - destruct (is_end_of_track event); repeat keeps_closed_step.
  - destruct (is_end_of_track event); [apply keeps_closed_ret|].
    apply keeps_closed_bind; [apply keeps_closed_read_event|intros ?]. apply IH.
Qed.

Lemma keeps_closed_read_track : keeps_closed read_track.
Proof.
  unfold read_track.
  apply keeps_closed_bind; [apply keeps_closed_read|intros hdr].
  destruct (negb _); [|apply keeps_closed_lift].
  apply keeps_closed_bind; [apply keeps_closed_lift|intros ?].
  apply keeps_closed_bind; [apply keeps_closed_read_event|intros ?].
  apply keeps_closed_bind; [|intros ?; repeat keeps_closed_step].
  intros f. apply keeps_closed_read_events.
Qed.

Lemma keeps_closed_read_tracks (cnt : nat) (ts : list Track) :
  keeps_closed (read_tracks cnt ts).
Proof.
  revert ts. induction cnt as [|cnt IH]; intros ts; simpl; [apply keeps_closed_ret|].
  apply keeps_closed_bind; [apply keeps_closed_read_track|intros ?]. apply IH.
Qed.

Lemma keeps_closed_read_all_body : keeps_closed read_all_body.
Proof.
  unfold read_all_body.
  apply keeps_closed_bind; [apply keeps_closed_read_header|intros ?].
  apply keeps_closed_bind; [apply keeps_closed_read_tracks|intros ?].
  apply keeps_closed_lift.
Qed.

Lemma read_all_unfold (f : File) :
  read_all f = bind read_all_body (fun file => _ <~ close ;; ret file) f.
Proof.
  unfold read_all, read_all_body, bind.
  destruct (read_header f) as [[h| |] f1]; [|done..].
  destruct (read_tracks _ _ f1) as [[ts| |] f2]; [|done..].
  unfold lift. by destruct (MidiFormat_init _ _).
Qed.

(** C6 (what the code does instead).  [self.file.close()] is the last
    but one statement of [read_all] and is not in a [finally] clause: the
    stream handed over open is closed when [read_all] returns a
    container, and is still open whenever [read_all] raises, whichever
    error it is, although the class tells its caller not to close the
    file.  These are the two ways [read_all] ends. *)
Theorem read_all_closes_on_success_only (f : File) :
  closed f = false ->
  (forall c, (read_all f).1 = Ok c -> closed (read_all f).2 = true) /\
  (forall e, (read_all f).1 = Raise e -> closed (read_all f).2 = false) /\
  ((exists c, (read_all f).1 = Ok c) \/ (exists e, (read_all f).1 = Raise e)).
Proof.
  intros Hf.
  assert (Hends : (exists c, (read_all f).1 = Ok c) \/
                  (exists e, (read_all f).1 = Raise e)).
  { pose proof (read_all_total f) as Ht.
    destruct (read_all f).1 as [c|e|]; [left | right | done]; by eexists. }
  revert Hends. rewrite read_all_unfold. unfold bind. intros Hends.
  pose proof (keeps_closed_read_all_body f) as Hbody.
  destruct (read_all_body f) as [[c| |] f']; simpl in *.
  - split; [done|]. split; [discriminate | done].
  - split; [discriminate|]. split; [congruence | done].
  - split; [discriminate|]. split; [discriminate | done].
Qed.

Lemma read_all_closes_on_success_only_witness :
  (read_all (open_bytes [])).1 = Raise (ValueError "Wrong format of file") /\
  closed (read_all (open_bytes [])).2 = false /\
  closed (read_all (open_bytes example_file)).2 = false /\
  closed (read_all (open_bytes (88 :: drop 1 example_file))).2 = true.
Proof.
  split; [reflexivity|]. split; [|split].
  - exact (proj1 (proj2 (read_all_closes_on_success_only (open_bytes []) eq_refl))
             (ValueError "Wrong format of file") eq_refl).
  - exact (proj1 (proj2 (read_all_closes_on_success_only (open_bytes example_file)
                           eq_refl))
             (ValueError "Wrong format of file") eq_refl).
  - exact (proj1 (read_all_closes_on_success_only
                    (open_bytes (88 :: drop 1 example_file)) eq_refl)
             (mkMidiFormat (mkHeader MThd 6 0 1 96) [example_track])
             example_file_decoded_without_magic).
Defined.

(** * Further properties of the codec *)

(** ** The variable-length quantity on its own *)

(** X1.  For a non-negative [n], decoding the bytes [Event.variable_len]
    emits gives [n] back exactly when [n] is below 2^21. *)
Theorem variable_len_roundtrip_iff (n : Z) :
  0 <= n ->
  (MidiParser_variable_len (variable_len n) = n <-> n < 2097152).
Proof.
  intros Hn. rewrite decode_variable_len by done.
  Z.to_euclidean_division_equations. lia.
Qed.

Lemma variable_len_roundtrip_iff_witness :
  MidiParser_variable_len (variable_len 1270000) = 1270000.
Proof.
  assert (H0 : 0 <= 1270000) by lia.
  apply (proj2 (variable_len_roundtrip_iff 1270000 H0)). lia.
Defined.

(** X2.  The bytes [Event.variable_len] emits for a non-negative number
    form a [bytes] object of one to three bytes; every byte but the last
    has bit 7 set and the last has it clear. *)
Theorem variable_len_wire_format (n : Z) :
  0 <= n ->
  bytes (variable_len n) = Ok (variable_len n) /\
  (1 <= length (variable_len n) <= 3)%nat /\
  exists front last_byte,
    variable_len n = front ++ [last_byte] /\
    Forall (fun b => continuation b = true) front /\
    continuation last_byte = false.
Proof.
  intros Hn. split; [by apply variable_len_is_bytes|].
  by apply variable_len_shape.
Qed.

Lemma variable_len_wire_format_witness :
  (1 <= length (variable_len 1270000) <= 3)%nat.
Proof.
  assert (H0 : 0 <= 1270000) by lia.
  exact (proj1 (proj2 (variable_len_wire_format 1270000 H0))).
Defined.

(** The bytes of a variable-length quantity, split at the last one. *)
Lemma variable_len_split (n : Z) :
  0 <= n ->
  exists front last_byte,
    variable_len n = front ++ [last_byte] /\
    Forall (fun b => 127 < b) front /\ last_byte <= 127 /\
    (length front < 4)%nat.
Proof.
  intros Hn.
  destruct (variable_len_shape n Hn) as (Hbytes & Hlen & front & lb & Heq & Hfront & Hlast).
  exists front, lb. rewrite Heq in Hbytes, Hlen.
  apply Forall_app in Hbytes as [Hbf Hbl]. rewrite Forall_singleton in Hbl.
  rewrite length_app in Hlen. simpl in Hlen.
  split; [done|]. split; [|split; [|lia]].
  - apply Forall_forall. intros b Hb.
    pose proof (proj1 (Forall_forall _ _) Hbf b Hb) as Hb1.
    pose proof (proj1 (Forall_forall _ _) Hfront b Hb) as Hb2. simpl in Hb2.
    rewrite continuation_ge in Hb2 by exact Hb1.
    apply bool_decide_eq_true in Hb2. lia.
  - rewrite continuation_ge in Hlast by exact Hbl.
    apply bool_decide_eq_false in Hlast. lia.
Qed.

(** Reading a variable-length quantity off a stream that continues with
    the bytes [variable_len n]. *)
Lemma read_var_len_variable_len (f : File) (n : Z) (tail : list Z) :
  closed f = false -> 0 <= n ->
  remaining f = variable_len n ++ tail ->
  read_var_len f = (Ok (n mod 2097152), advance (length (variable_len n)) f).
Proof.
  intros Hf Hn Hrem.
  destruct (variable_len_split n Hn) as (front & lb & Heq & Hfront & Hlb & Hlen).
  destruct (read_var_len_loop_spec tail front Hfront 4 [] f Hf) as (H1 & _ & _).
  unfold read_var_len. erewrite bind_Ok; cycle 1.
  { apply (H1 lb Hlen Hlb). by rewrite Hrem, Heq, <- app_assoc. }
  unfold ret. simpl. rewrite <- Heq, decode_variable_len by done.
  by rewrite Heq, length_app.
Qed.

(** X3.  The decoder's [__read_var_len] inverts [Event.variable_len] on a
    stream: when the unread part of an open stream starts with the bytes
    emitted for a number [n] in [0, 2^21), it returns [n] and leaves the
    position just behind these bytes, whatever follows. *)
Theorem read_var_len_inverts_variable_len (f : File) (n : Z) (tail : list Z) :
  closed f = false -> 0 <= n < 2097152 ->
  remaining f = variable_len n ++ tail ->
  read_var_len f = (Ok n, advance (length (variable_len n)) f) /\
  remaining (advance (length (variable_len n)) f) = tail.
Proof.
  intros Hf Hn Hrem. split.
  - rewrite (read_var_len_variable_len f n tail) by (done || lia).
    do 2 f_equal. Z.to_euclidean_division_equations. lia.
  - by rewrite remaining_advance, Hrem, drop_app_length.
Qed.

Lemma read_var_len_inverts_variable_len_witness :
  read_var_len (open_bytes (variable_len 1270000 ++ [153; 60; 127])) =
    (Ok 1270000, mkFile [205; 193; 112; 153; 60; 127] 3 false).
Proof.
  assert (Hn : 0 <= 1270000 < 2097152) by lia.
  exact (proj1 (read_var_len_inverts_variable_len
                  (open_bytes (variable_len 1270000 ++ [153; 60; 127]))
                  1270000 [153; 60; 127] eq_refl Hn eq_refl)).
Defined.

(** The value of a list of bytes as [__variable_len] computes it. *)
Lemma MidiParser_variable_len_snoc (array : list Z) (b : Z) :
  MidiParser_variable_len (array ++ [b]) =
  MidiParser_variable_len array * 128 + b mod 128.
Proof.
  unfold MidiParser_variable_len. rewrite foldl_app. simpl.
  rewrite shiftl_7, land_127, lor_shifted; [done|].
  Z.to_euclidean_division_equations. lia.
Qed.

Lemma MidiParser_variable_len_bound (array : list Z) :
  0 <= MidiParser_variable_len array < 128 ^ Z.of_nat (length array).
Proof.
  induction array as [|b array IH] using rev_ind; [done|].
  rewrite MidiParser_variable_len_snoc, length_app. simpl.
  replace (Z.of_nat (length array + 1)) with (Z.succ (Z.of_nat (length array))) by lia.
  rewrite Z.pow_succ_r by lia.
  assert (0 <= b mod 128 < 128) by (Z.to_euclidean_division_equations; lia).
  nia.
Qed.

(** What the loop of [__read_var_len] has done when it returns. *)
Lemma read_var_len_loop_Ok (cnt : nat) :
  forall (acc : list Z) (f f' : File) (l : list Z),
  read_var_len_loop cnt acc f = (Ok l, f') ->
  exists k : nat,
    (k <= cnt)%nat /\ (cnt = 0%nat \/ 1 <= k)%nat /\
    length l = (length acc + k)%nat /\
    pos f' = (pos f + k)%nat /\ content f' = content f /\ closed f' = closed f.
Proof.
  induction cnt as [|cnt IH]; intros acc f f' l; simpl.
  - intros [= <- <-]. exists 0%nat. repeat split; auto with lia.
  - unfold bind, read. destruct (closed f) eqn:Hf; [done|].
    rewrite bool_decide_eq_false_2 by lia. change (Z.to_nat 1) with 1%nat.
    destruct (drop (pos f) (content f)) as [|b tl] eqn:Hrest; simpl; [done|].
    rewrite ?take_0. simpl. case_bool_decide.
    + intros [= <- <-]. exists 1%nat. rewrite length_app. simpl.
      repeat split; auto with lia.
    + intros Hloop. apply IH in Hloop as (k & Hk & _ & Hl & Hp & Hc & Hcl).
      simpl in *. exists (S k). rewrite length_app in Hl. simpl in Hl.
      repeat split; auto with lia.
Qed.

(** X4.  Whatever the stream holds, a value returned by [__read_var_len]
    lies in [0, 2^28), between one and four bytes have been consumed for
    it, and the stream is otherwise untouched. *)
Theorem read_var_len_range (f f' : File) (v : Z) :
  read_var_len f = (Ok v, f') ->
  0 <= v < 268435456 /\
  (pos f + 1 <= pos f' <= pos f + 4)%nat /\
  content f' = content f /\ closed f' = closed f.
Proof.
  unfold read_var_len, bind.
  destruct (read_var_len_loop 4 [] f) as [[l| |] f1] eqn:Hloop; [|done..].
  unfold ret. intros [= <- <-].
  apply read_var_len_loop_Ok in Hloop as (k & Hk & Hk1 & Hl & Hp & Hc & Hcl).
  simpl in Hl. split; [|split; [lia | done]].
  pose proof (MidiParser_variable_len_bound l) as Hb.
  assert (128 ^ Z.of_nat (length l) <= 128 ^ 4) by (apply Z.pow_le_mono_r; lia).
  change (128 ^ 4) with 268435456 in *. lia.
Qed.

Lemma read_var_len_range_witness :
  read_var_len (open_bytes [255; 255; 255; 255; 255]) =
    (Ok 268435455, mkFile [255; 255; 255; 255; 255] 4 false) /\
  0 <= 268435455 < 268435456.
Proof.
  split; [reflexivity|].
  exact (proj1 (read_var_len_range (open_bytes [255; 255; 255; 255; 255])
                  (mkFile [255; 255; 255; 255; 255] 4 false) 268435455 eq_refl)).
Defined.

(** ** Construction and serialisation of events *)

(** X5.  The checks of [MidiEvent.__init__] in their order: the channel
    first ([ChannelError]), then the base status ([StatusError]), then
    the payload length ([DataLengthError]), then the payload values
    ([DataError]), and the delta time last ([MidiError]). *)
Theorem MidiEvent_init_error_order (dt st ch : Z) (d : list Z) :
  (~ 0 <= ch <= 15 -> MidiEvent_init dt st ch d = Raise ChannelError) /\
  (0 <= ch <= 15 -> st ∉ midi_keys ->
     MidiEvent_init dt st ch d = Raise StatusError) /\
  (0 <= ch <= 15 -> st ∈ midi_keys -> len d <> required_len st ->
     MidiEvent_init dt st ch d = Raise DataLengthError) /\
  (0 <= ch <= 15 -> st ∈ midi_keys -> len d = required_len st ->
     ~ Forall (fun y => y <= 127) d ->
     MidiEvent_init dt st ch d = Raise DataError) /\
  (0 <= ch <= 15 -> st ∈ midi_keys -> len d = required_len st ->
     Forall (fun y => y <= 127) d -> ~ 0 <= dt <= 4294967167 ->
     MidiEvent_init dt st ch d = Raise (MidiError " Wrong delta time value")).
Proof.
  split; [|split; [|split; [|split]]].
  - intros Hch. unfold MidiEvent_init. by rewrite bool_decide_eq_false_2.
  - intros Hch Hst. unfold MidiEvent_init.
    rewrite bool_decide_eq_true_2 by done. simpl.
    destruct (dict_in st StatusBytes.midi) eqn:Hin; [|done].
    by apply dict_in_midi in Hin.
  - apply MidiEvent_init_DataLengthError.
  - intros Hch Hst Hlen Hd.
    destruct (MidiEvent_init dt st ch d) as [e|x|] eqn:Hinit.
    + apply MidiEvent_init_Ok in Hinit. tauto.
    + revert Hinit. unfold MidiEvent_init.
      rewrite bool_decide_eq_true_2 by done. simpl.
      rewrite (proj2 (dict_in_midi st)) by done. simpl.
      assert (Hl : list_in st [192; 223] = bool_decide (st = 192)).
      { unfold list_in. apply bool_decide_ext.
        rewrite !elem_of_cons, elem_of_nil. apply midi_keys_spec in Hst. lia. }
      rewrite Hl. unfold required_len in Hlen.
      destruct (bool_decide (st = 192)); simpl;
        rewrite (bool_decide_eq_true_2 _ Hlen); simpl;
        (destruct d as [|y d']; [unfold len in Hlen; simpl in Hlen; lia|]);
        pose proof (py_max_le 127 (y :: d') _ eq_refl) as Hmax;
        unfold py_max; simpl rbind;
        (rewrite bool_decide_eq_true_2; [done|]);
        destruct (decide (foldl Z.max y d' > 127)); try done;
        exfalso; apply Hd, Hmax; lia.
    + by pose proof (total_MidiEvent_init dt st ch d).
  - intros Hch Hst Hlen Hd Hdt. unfold MidiEvent_init.
    rewrite bool_decide_eq_true_2 by done. simpl.
    rewrite (proj2 (dict_in_midi st)) by done. simpl.
    assert (Hl : list_in st [192; 223] = bool_decide (st = 192)).
    { unfold list_in. apply bool_decide_ext.
      rewrite !elem_of_cons, elem_of_nil. apply midi_keys_spec in Hst. lia. }
    rewrite Hl. unfold required_len in Hlen.
    destruct (bool_decide (st = 192)); simpl;
      rewrite (bool_decide_eq_true_2 _ Hlen); simpl;
      (destruct d as [|y d']; [unfold len in Hlen; simpl in Hlen; lia|]);
      pose proof (py_max_le 127 (y :: d') _ eq_refl) as Hmax;
      unfold py_max; simpl rbind;
      (rewrite bool_decide_eq_false_2; [|apply Hmax in Hd; lia]);
      unfold Event_init; by rewrite bool_decide_eq_false_2.
Qed.

Lemma MidiEvent_init_error_order_witness :
  MidiEvent_init 0 144 16 [60; 127] = Raise ChannelError /\
  MidiEvent_init 0 999 0 [60; 127] = Raise StatusError /\
  MidiEvent_init 0 192 0 [60; 127] = Raise DataLengthError /\
  MidiEvent_init 0 144 0 [60; 128] = Raise DataError /\
  MidiEvent_init (-1) 144 0 [60; 127] = Raise (MidiError " Wrong delta time value").
Proof.
  assert (Hch : 0 <= 0 <= 15) by lia.
  assert (H144 : 144 ∈ midi_keys) by (apply midi_keys_spec; lia).
  assert (H192 : 192 ∈ midi_keys) by (apply midi_keys_spec; lia).
  split; [|split; [|split; [|split]]].
  - apply (proj1 (MidiEvent_init_error_order 0 144 16 [60; 127])). lia.
  - apply (proj1 (proj2 (MidiEvent_init_error_order 0 999 0 [60; 127])) Hch).
    rewrite midi_keys_spec. lia.
  - apply (proj1 (proj2 (proj2 (MidiEvent_init_error_order 0 192 0 [60; 127])))
             Hch H192).
    discriminate.
  - apply (proj1 (proj2 (proj2 (proj2 (MidiEvent_init_error_order 0 144 0 [60; 128]))))
             Hch H144 eq_refl).
    intros H. apply Forall_cons in H as [_ H]. apply Forall_cons in H as [H _]. lia.
  - apply (proj2 (proj2 (proj2 (proj2 (MidiEvent_init_error_order (-1) 144 0 [60; 127]))))
             Hch H144 eq_refl); [repeat constructor; lia | lia].
Defined.

Lemma bytes_iff (l : list Z) : bytes l = Ok l <-> Forall is_byte l.
Proof.
  unfold bytes. case_bool_decide; [tauto|]. split; [done | tauto].
Qed.

Lemma bytes_not (l : list Z) :
  ~ Forall is_byte l -> bytes l = Raise (ValueError "bytes must be in range(0, 256)").
Proof. intros H. unfold bytes. by rewrite bool_decide_eq_false_2. Qed.

(** X6.  A channel-voice event that was constructed is written as
    VLQ(delta_time), the status byte (base status plus channel) and the
    payload, provided no payload value is negative; the constructor lets
    negative values through, and [to_hex] then raises [ValueError]. *)
Theorem MidiEvent_to_hex (dt st ch : Z) (d : list Z) (e : Event) :
  MidiEvent_init dt st ch d = Ok e ->
  (Forall (fun y => 0 <= y) d ->
     to_hex e = Ok (variable_len dt ++ [st + ch] ++ d)) /\
  (~ Forall (fun y => 0 <= y) d ->
     to_hex e = Raise (ValueError "bytes must be in range(0, 256)")).
Proof.
  intros (Hch & Hst & _ & Hd & Hdt & ->)%MidiEvent_init_Ok.
  apply midi_keys_spec in Hst. unfold to_hex. simpl.
  rewrite variable_len_is_bytes by lia. simpl.
  rewrite (proj2 (bytes_iff [st + ch])) by (repeat constructor; unfold is_byte; lia).
  simpl. split; intros Hnn.
  - rewrite (proj2 (bytes_iff d)); [simpl; by rewrite app_nil_r|].
    apply Forall_forall. intros y Hy. unfold is_byte.
    pose proof (proj1 (Forall_forall _ _) Hd y Hy).
    pose proof (proj1 (Forall_forall _ _) Hnn y Hy). simpl in *. lia.
  - rewrite bytes_not; [done|]. intros Hb. apply Hnn.
    apply Forall_forall. intros y Hy.
    pose proof (proj1 (Forall_forall _ _) Hb y Hy) as Hyb. unfold is_byte in Hyb. lia.
Qed.

Lemma MidiEvent_to_hex_witness :
  to_hex example_note_on = Ok [205; 193; 112; 153; 60; 127] /\
  (MidiEvent_init 0 144 0 [-1; 0] =
     Ok (mkEvent MidiEventCls 0 144 [-1; 0] [[0]; [144]; [-1; 0]] None None) /\
   to_hex (mkEvent MidiEventCls 0 144 [-1; 0] [[0]; [144]; [-1; 0]] None None) =
     Raise (ValueError "bytes must be in range(0, 256)")).
Proof.
  split; [|split; [reflexivity|]].
  - apply (proj1 (MidiEvent_to_hex 1270000 144 9 [60; 127] example_note_on eq_refl)).
    repeat constructor; lia.
  - apply (proj2 (MidiEvent_to_hex 0 144 0 [-1; 0] _ eq_refl)).
    intros H. apply Forall_cons in H as [H _]. lia.
Defined.

(** X7.  [SysExEvent.__init__] returns exactly for a status of 240 or 247
    and a delta time within the guard, and raises [StatusError] for any
    other status.  The object's [length] is the number of payload bytes,
    and it is written as VLQ(delta_time), status, VLQ(length), payload
    when the payload is made of bytes. *)
Theorem SysExEvent_init_to_hex (dt st : Z) (d : list Z) :
  (st ∉ [240; 247] -> SysExEvent_init dt st d = Raise StatusError) /\
  (st ∈ [240; 247] -> 0 <= dt <= 4294967167 ->
   exists e, SysExEvent_init dt st d = Ok e /\
     status e = st /\ delta_time e = dt /\ data e = d /\
     ev_length e = Some (len d) /\
     (Forall is_byte d ->
        to_hex e = Ok (variable_len dt ++ [st] ++ variable_len (len d) ++ d))).
Proof.
  split.
  - intros Hst. unfold SysExEvent_init.
    destruct (dict_in st StatusBytes.sysex) eqn:Hin; [|done].
    by apply dict_in_sysex in Hin.
  - intros Hst Hdt. eexists. split.
    { apply SysExEvent_init_Ok. split; [done|]. split; [done | reflexivity]. }
    simpl. repeat (split; [done|]). intros Hd. unfold to_hex. simpl.
    rewrite !elem_of_cons, elem_of_nil in Hst.
    rewrite variable_len_is_bytes by lia. simpl.
    rewrite (proj2 (bytes_iff [st])) by (repeat constructor; unfold is_byte; lia).
    simpl. rewrite variable_len_is_bytes by (unfold len; lia). simpl.
    rewrite (proj2 (bytes_iff d)) by done. simpl. by rewrite app_nil_r.
Qed.

Lemma SysExEvent_init_to_hex_witness :
  SysExEvent_init 127 241 [0; 1; 1] = Raise StatusError /\
  exists e, SysExEvent_init 127 240 [0; 1; 1] = Ok e /\
            to_hex e = Ok [127; 240; 3; 0; 1; 1].
Proof.
  split.
  - apply (proj1 (SysExEvent_init_to_hex 127 241 [0; 1; 1])).
    rewrite !elem_of_cons, elem_of_nil. lia.
  - assert (Hst : 240 ∈ [240; 247]) by (rewrite !elem_of_cons; lia).
    assert (Hdt : 0 <= 127 <= 4294967167) by lia.
    destruct (proj2 (SysExEvent_init_to_hex 127 240 [0; 1; 1]) Hst Hdt)
      as (e & He & _ & _ & _ & _ & Hhex).
    exists e. split; [exact He|]. apply Hhex.
    repeat constructor; unfold is_byte; lia.
Defined.

Lemma dict_in_meta (k : Z) :
  dict_in k StatusBytes.meta = true <-> k ∈ meta_keys.
Proof. apply dict_in_list_to_map. Qed.

Lemma meta_keys_byte (k : Z) : k ∈ meta_keys -> 0 <= k <= 127.
Proof. unfold meta_keys. rewrite !elem_of_cons, elem_of_nil. lia. Qed.

(** X8.  [MetaEvent.__init__] returns exactly for an event type of
    [StatusBytes.meta] and a delta time within the guard, and raises
    [MidiError] for any other event type.  The status is 255, [length]
    is the number of payload bytes, and the event is written as
    VLQ(delta_time), 255, event type, VLQ(length), payload when the
    payload is made of bytes. *)
Theorem MetaEvent_init_to_hex (et dt : Z) (d : list Z) :
  (et ∉ meta_keys ->
     MetaEvent_init et dt d = Raise (MidiError "Wrong event type for Meta event")) /\
  (et ∈ meta_keys -> 0 <= dt <= 4294967167 ->
   exists e, MetaEvent_init et dt d = Ok e /\
     status e = 255 /\ event_type e = Some et /\ delta_time e = dt /\
     data e = d /\ ev_length e = Some (len d) /\
     (Forall is_byte d ->
        to_hex e = Ok (variable_len dt ++ [255] ++ [et] ++ variable_len (len d) ++ d))).
Proof.
  split.
  - intros Het. unfold MetaEvent_init.
    destruct (dict_in et StatusBytes.meta) eqn:Hin; [|done].
    by apply dict_in_meta in Hin.
  - intros Het Hdt. eexists. split.
    { apply MetaEvent_init_Ok. split; [by apply dict_in_meta|].
      split; [done | reflexivity]. }
    simpl. repeat (split; [done|]). intros Hd. unfold to_hex. simpl.
    apply meta_keys_byte in Het.
    rewrite variable_len_is_bytes by lia. simpl.
    rewrite (proj2 (bytes_iff [et])) by (repeat constructor; unfold is_byte; lia).
    simpl. rewrite variable_len_is_bytes by (unfold len; lia). simpl.
    rewrite (proj2 (bytes_iff d)) by done. simpl. by rewrite app_nil_r.
Qed.

Lemma MetaEvent_init_to_hex_witness :
  MetaEvent_init 48 0 [] = Raise (MidiError "Wrong event type for Meta event") /\
  exists e, MetaEvent_init 89 0 [2; 7; 0] = Ok e /\
            to_hex e = Ok [0; 255; 89; 3; 2; 7; 0].
Proof.
  split.
  - apply (proj1 (MetaEvent_init_to_hex 48 0 [])).
    unfold meta_keys. rewrite !elem_of_cons, elem_of_nil. lia.
  - assert (Het : 89 ∈ meta_keys) by (unfold meta_keys; rewrite !elem_of_cons; lia).
    assert (Hdt : 0 <= 0 <= 4294967167) by lia.
    destruct (proj2 (MetaEvent_init_to_hex 89 0 [2; 7; 0]) Het Hdt)
      as (e & He & _ & _ & _ & _ & _ & Hhex).
    exists e. split; [exact He|]. apply Hhex.
    repeat constructor; unfold is_byte; lia.
Defined.

(** X9.  The label lookup of [get_event_type] finds an entry for every
    SysEx event and every Meta event that was constructed. *)
Theorem get_event_type_found (e : Event) :
  ((exists dt st d, SysExEvent_init dt st d = Ok e) ->
     is_Some (SysExEvent_get_event_type e)) /\
  ((exists et dt d, MetaEvent_init et dt d = Ok e) ->
     is_Some (MetaEvent_get_event_type e)).
Proof.
  split.
  - intros (dt & st & d & (Hst & _ & ->)%SysExEvent_init_Ok).
    unfold SysExEvent_get_event_type. simpl.
    apply dict_in_sysex in Hst. unfold dict_in in Hst.
    by apply bool_decide_eq_true in Hst.
  - intros (et & dt & d & (Het & _ & ->)%MetaEvent_init_Ok).
    unfold MetaEvent_get_event_type. simpl.
    unfold dict_in in Het. by apply bool_decide_eq_true in Het.
Qed.

Lemma get_event_type_found_witness :
  MetaEvent_get_event_type example_end_of_track = Some "End of Track"%string.
Proof.
  destruct (proj2 (get_event_type_found example_end_of_track)) as [x Hx].
  - by exists 47, 0, [].
  - rewrite Hx. vm_compute in Hx. congruence.
Defined.

(** ** The header chunk *)

Lemma be_bytes_2 (v : Z) : 0 <= v <= 65535 -> be_bytes 2 v = [v / 256; v mod 256].
Proof.
  intros Hv. simpl. f_equal. Z.to_euclidean_division_equations. lia.
Qed.

(** The bytes of a constructed header, and when [to_hex] raises instead. *)
Lemma Header_to_hex_fields (ff nt pq : Z) (h : Header) :
  Header_init ff nt pq = Ok h ->
  (0 <= nt -> 0 <= pq <= 65535 ->
     Header_to_hex h =
       Ok (MThd ++ [0; 0; 0; 6] ++ [0; ff; 0; nt; pq / 256; pq mod 256])) /\
  (~ (0 <= nt /\ 0 <= pq <= 65535) -> Header_to_hex h = Raise StructError).
Proof.
  intros Hh. pose proof (Header_init_Ok ff nt pq h Hh) as ->.
  assert (Hff : 0 <= ff <= 2 /\ nt < 15).
  { unfold Header_init in Hh.
    destruct (list_in ff [0; 1; 2]) eqn:Hin; simpl in Hh; [|done].
    apply list_in_spec, formats_spec in Hin.
    repeat case_bool_decide; simpl in Hh; try done; lia. }
  unfold Header_to_hex, pack_LHHH, pack_L, pack_H.
  cbn [mthd hdr_length file_format ntracks ppqn].
  rewrite (bool_decide_eq_true_2 (0 <= 6 <= 4294967295)) by lia.
  rewrite (bool_decide_eq_true_2 (0 <= ff <= 65535)) by lia.
  cbn [rbind]. split.
  - intros Hnt Hpq.
    rewrite (bool_decide_eq_true_2 (0 <= nt <= 65535)) by lia.
    rewrite (bool_decide_eq_true_2 (0 <= pq <= 65535)) by lia.
    cbn [rbind]. rewrite !be_bytes_2 by lia.
    replace (ff / 256) with 0 by (Z.to_euclidean_division_equations; lia).
    replace (nt / 256) with 0 by (Z.to_euclidean_division_equations; lia).
    replace (ff mod 256) with ff by (Z.to_euclidean_division_equations; lia).
    replace (nt mod 256) with nt by (Z.to_euclidean_division_equations; lia).
    reflexivity.
  - intros Hbad. case_bool_decide; cbn [rbind]; [|done].
    rewrite bool_decide_eq_false_2 by lia. done.
Qed.

(** X10.  The bytes of a constructed header: "MThd", the length 6 on
    four bytes, then format, track count and resolution on two bytes
    each, most significant first, fourteen bytes in all.  [to_hex]
    raises [struct.error] instead when the track count is negative or the
    resolution does not fit sixteen bits, values the constructor lets
    through. *)
Theorem Header_to_hex_layout (ff nt pq : Z) (h : Header) :
  Header_init ff nt pq = Ok h ->
  (0 <= nt -> 0 <= pq <= 65535 ->
     Header_to_hex h =
       Ok (MThd ++ [0; 0; 0; 6] ++ [0; ff; 0; nt; pq / 256; pq mod 256])) /\
  (~ (0 <= nt /\ 0 <= pq <= 65535) -> Header_to_hex h = Raise StructError).
Proof. apply Header_to_hex_fields. Qed.

Lemma Header_to_hex_layout_witness :
  Header_to_hex (mkHeader MThd 6 0 1 96) =
    Ok [77; 84; 104; 100; 0; 0; 0; 6; 0; 0; 0; 1; 0; 96] /\
  Header_to_hex (mkHeader MThd 6 1 (-1) 96) = Raise StructError.
Proof.
  split.
  - apply (proj1 (Header_to_hex_layout 0 1 96 _ eq_refl)); lia.
  - apply (proj2 (Header_to_hex_layout 1 (-1) 96 _ eq_refl)). lia.
Defined.

(** The field bytes of a header are read back behind a prologue that
    [__read_header] accepts. *)
Lemma read_header_fields
    (ff nt pq : Z) (h : Header) (hb p8 tail : list Z) :
  Header_init ff nt pq = Ok h -> Header_to_hex h = Ok hb ->
  length p8 = 8%nat -> take 4 p8 <> MThd ->
  read_header (open_bytes (p8 ++ drop 8 hb ++ tail)) =
    (Ok h, mkFile (p8 ++ drop 8 hb ++ tail) 14 false).
Proof.
  intros Hh Hhb Hlen Hmagic.
  destruct (decide (0 <= nt /\ 0 <= pq <= 65535)) as [[Hnt Hpq]|Hbad]; cycle 1.
  { rewrite (proj2 (Header_to_hex_fields ff nt pq h Hh) Hbad) in Hhb. done. }
  rewrite (proj1 (Header_to_hex_fields ff nt pq h Hh) Hnt Hpq) in Hhb.
  injection Hhb as <-. simpl drop.
  pose proof (read_header_not_MThd p8 tail 0 ff 0 nt (pq / 256) (pq mod 256)
                Hlen Hmagic) as Hread.
  simpl in Hread. simpl app at 2 3. rewrite Hread. f_equal.
  rewrite <- Hh. f_equal; Z.to_euclidean_division_equations; lia.
Qed.

(** X11.  The decoder reads the fields of a header back: behind eight
    bytes that do not start with "MThd" (the prologue [__read_header]
    accepts), the six field bytes [Header.to_hex] wrote give the header
    they were written from. *)
Theorem read_header_inverts_to_hex
    (ff nt pq : Z) (h : Header) (hb p8 tail : list Z) :
  Header_init ff nt pq = Ok h -> Header_to_hex h = Ok hb ->
  length p8 = 8%nat -> take 4 p8 <> MThd ->
  read_header (open_bytes (p8 ++ drop 8 hb ++ tail)) =
    (Ok h, mkFile (p8 ++ drop 8 hb ++ tail) 14 false).
Proof. apply read_header_fields. Qed.

Lemma read_header_inverts_to_hex_witness :
  read_header
    (open_bytes ([88; 88; 88; 88; 0; 0; 0; 6] ++ [0; 0; 0; 1; 0; 96] ++ example_track_wire)) =
    (Ok (mkHeader MThd 6 0 1 96),
     mkFile ([88; 88; 88; 88; 0; 0; 0; 6] ++ [0; 0; 0; 1; 0; 96] ++ example_track_wire)
       14 false).
Proof.
  assert (Hmagic : take 4 [88; 88; 88; 88; 0; 0; 0; 6] <> MThd) by discriminate.
  exact (read_header_inverts_to_hex 0 1 96 (mkHeader MThd 6 0 1 96)
           [77; 84; 104; 100; 0; 0; 0; 6; 0; 0; 0; 1; 0; 96]
           [88; 88; 88; 88; 0; 0; 0; 6] example_track_wire
           eq_refl eq_refl eq_refl Hmagic).
Defined.

(** ** The event stream of a track *)

Lemma to_hex_wire (e : Event) (h : list Z) : to_hex e = Ok h -> h = wire e.
Proof. intros H. by apply to_hex_Ok in H as [-> _]. Qed.

(** A constructed event whose status is below 240 is, in full,
    VLQ(delta_time), the status byte and the payload. *)
Lemma wire_channel_voice (e : Event) :
  constructed e -> status e < 240 ->
  event e = [variable_len (delta_time e); [status e]; data e] /\
  wire e = variable_len (delta_time e) ++ status e :: data e.
Proof.
  intros He Hlt. destruct (constructed_shape e He) as (_ & _ & _ & Hshape).
  split; [by apply Hshape|]. unfold wire. rewrite (Hshape Hlt). simpl.
  by rewrite app_nil_r.
Qed.

Lemma running_status_step_piece (b : list Z) (prev e : Event) :
  constructed e -> to_hex e = Ok (wire e) ->
  running_status_step (b, status prev) e = Ok (b ++ piece true prev e, status e).
Proof.
  intros He Hhex. unfold running_status_step, piece, elides. rewrite Hhex. simpl.
  destruct (bool_decide (status prev = status e) && bool_decide (status e < 240))
    eqn:Hel; simpl; [|done].
  apply andb_true_iff in Hel as [_ Hlt%bool_decide_eq_true].
  destruct (wire_channel_voice e He Hlt) as [Hev Hw].
  destruct (to_hex_Ok e _ Hhex) as [_ Hdt]. rewrite (Hdt _ _ Hev). simpl.
  by rewrite Hw, drop_status_byte.
Qed.

Lemma running_status_loop_pieces (evs : list Event) :
  forall (b : list Z) (prev : Event),
  Forall constructed evs -> Forall (fun e => to_hex e = Ok (wire e)) evs ->
  exists s, running_status_loop (b, status prev) evs =
            Ok (b ++ pieces true prev evs, s).
Proof.
  induction evs as [|e evs IH]; intros b prev Hc Hh; cbn [running_status_loop pieces].
  - exists (status prev). by rewrite app_nil_r.
  - apply Forall_cons in Hc as [He Hc]. apply Forall_cons in Hh as [Hhe Hh].
    rewrite running_status_step_piece by done. cbn [rbind].
    destruct (IH (b ++ piece true prev e) e Hc Hh) as [s Hs].
    exists s. by rewrite Hs, <- app_assoc.
Qed.

Lemma rmap_to_hex_wire (evs : list Event) :
  Forall (fun e => to_hex e = Ok (wire e)) evs ->
  rmap to_hex evs = Ok (map wire evs).
Proof.
  induction 1 as [|e evs He _ IH]; simpl; [done|]. by rewrite He, IH.
Qed.

Lemma pieces_false (prev : Event) (evs : list Event) :
  pieces false prev evs = concat (map wire evs).
Proof.
  revert prev. induction evs as [|e evs IH]; intros prev; simpl; [done|].
  by rewrite IH.
Qed.

(** The bytes of a track of constructed events that all serialise. *)
Lemma length_and_bytes_track_wire (mode : bool) (evs : list Event) :
  evs <> [] ->
  Forall constructed evs -> Forall (fun e => to_hex e = Ok (wire e)) evs ->
  length_and_bytes evs mode = Ok (len (track_wire mode evs), track_wire mode evs).
Proof.
  intros Hne Hc Hh. unfold length_and_bytes.
  destruct evs as [|e0 rest]; [done|]. destruct mode.
  - apply Forall_cons in Hc as [_ Hc]. apply Forall_cons in Hh as [Hh0 Hh].
    unfold running_status. rewrite Hh0. simpl.
    destruct (running_status_loop_pieces rest (wire e0) e0 Hc Hh) as [s ->].
    done.
  - rewrite rmap_to_hex_wire by done. simpl. by rewrite pieces_false.
Qed.

(** X12.  A track built from constructed events that all serialise:
    [Track.__init__] returns an object that keeps the events and the mode;
    its bytes are the first event in full followed by the piece of every
    later event (every event in full when running status is off); its
    [length] is the number of these bytes; and
    [Track.to_hex] is "MTrk", that number on four bytes and the bytes.
    An empty list of events is refused with [MidiError]. *)
Theorem Track_init_chunk (mode : bool) (evs : list Event) :
  Track_init [] mode = Raise (MidiError "Events list is empty") /\
  track_wire false evs = concat (map wire evs) /\
  (evs <> [] ->
   Forall constructed evs -> Forall (fun e => to_hex e = Ok (wire e)) evs ->
   let t := mkTrack MTrk evs mode (len (track_wire mode evs)) (track_wire mode evs) in
   Track_init evs mode = Ok t /\
   (len (track_wire mode evs) <= 4294967295 ->
      Track_to_hex t =
        Ok (MTrk ++ be_bytes 4 (len (track_wire mode evs)) ++ track_wire mode evs))).
Proof.
  split; [done|]. split.
  { destruct evs as [|e0 rest]; [done|]. simpl. by rewrite pieces_false. }
  intros Hne Hc Hh t. split.
  - unfold Track_init. destruct evs as [|e0 rest]; [done|].
    by rewrite length_and_bytes_track_wire.
  - intros Hlen. unfold Track_to_hex, pack_L. subst t. simpl.
    rewrite bool_decide_eq_true_2; [done|]. unfold len in *. lia.
Qed.

Lemma Track_init_chunk_witness :
  Track_init example_events true = Ok example_track /\
  Track_to_hex example_track = Ok example_track_wire.
Proof.
  assert (Hc : Forall constructed example_events).
  { constructor; [left; by exists 1270000, 144, 9, [60; 127]|].
    constructor; [left; by exists 127, 128, 9, [60; 0]|].
    constructor; [right; right; left; by exists 47, 0, []|]. constructor. }
  assert (Hh : Forall (fun e => to_hex e = Ok (wire e)) example_events)
    by (repeat constructor).
  assert (Hne : example_events <> []) by discriminate.
  destruct (proj2 (proj2 (Track_init_chunk true example_events)) Hne Hc Hh) as [H1 H2].
  split; [exact H1|]. apply H2. vm_compute. discriminate.
Defined.

Lemma length_piece (prev e : Event) :
  constructed e ->
  (length (piece true prev e) + (if elides prev e then 1 else 0))%nat =
  length (wire e).
Proof.
  intros He. unfold piece. simpl. destruct (elides prev e) eqn:Hel; [|lia].
  unfold elides in Hel. apply andb_true_iff in Hel as [_ Hlt%bool_decide_eq_true].
  destruct (wire_channel_voice e He Hlt) as [_ ->].
  rewrite !length_app. simpl. lia.
Qed.

Lemma length_pieces (prev : Event) (evs : list Event) :
  Forall constructed evs ->
  (length (pieces true prev evs) + elided_count prev evs)%nat =
  length (concat (map wire evs)).
Proof.
  revert prev. induction evs as [|e evs IH]; intros prev Hc; simpl; [done|].
  apply Forall_cons in Hc as [He Hc].
  rewrite !length_app. pose proof (length_piece prev e He). specialize (IH e Hc). lia.
Qed.

(** X13.  What running status saves: for a track of constructed events
    that all serialise, [Track.running_status] returns, and its result
    is shorter than the events written in full by exactly one byte for
    each event that has the status of its predecessor, below 240. *)
Theorem running_status_saves (e0 : Event) (evs : list Event) :
  Forall constructed (e0 :: evs) ->
  Forall (fun e => is_ok (to_hex e)) (e0 :: evs) ->
  exists bs hs,
    running_status (e0 :: evs) = Ok bs /\
    rmap to_hex (e0 :: evs) = Ok hs /\
    (length bs + elided_count e0 evs)%nat = length (concat hs).
Proof.
  intros Hc Hok.
  assert (Hh : Forall (fun e => to_hex e = Ok (wire e)) (e0 :: evs)).
  { eapply Forall_impl; [exact Hok|]. intros e [h He]. simpl.
    by rewrite He, (to_hex_wire e h He). }
  exists (track_wire true (e0 :: evs)), (map wire (e0 :: evs)).
  split; [|split].
  - pose proof (length_and_bytes_track_wire true (e0 :: evs)) as H.
    unfold length_and_bytes in H.
    destruct (running_status (e0 :: evs)) as [bs| |]; simpl in H.
    + specialize (H ltac:(done) Hc Hh). by injection H as _ ->.
    + by specialize (H ltac:(done) Hc Hh).
    + by specialize (H ltac:(done) Hc Hh).
  - by apply rmap_to_hex_wire.
  - apply Forall_cons in Hc as [_ Hc]. simpl. rewrite !length_app.
    pose proof (length_pieces e0 evs Hc). lia.
Qed.

Lemma running_status_saves_witness :
  exists bs hs,
    running_status [example_note_on; example_note_on_again; example_end_of_track] = Ok bs /\
    rmap to_hex [example_note_on; example_note_on_again; example_end_of_track] = Ok hs /\
    (length bs + 1)%nat = length (concat hs).
Proof.
  apply (running_status_saves example_note_on
           [example_note_on_again; example_end_of_track]).
  - constructor; [left; by exists 1270000, 144, 9, [60; 127]|].
    constructor; [left; by exists 127, 144, 9, [60; 0]|].
    constructor; [right; right; left; by exists 47, 0, []|]. constructor.
  - constructor; [by eexists|]. constructor; [by eexists|].
    constructor; [by eexists|]. constructor.
Defined.

(** ** Decoding one event *)

Lemma bind_read_byte {B} (k : Z -> M B) (f : File) (b : Z) (tl : list Z) :
  closed f = false -> remaining f = b :: tl ->
  bind (read 1) (fun bs => bind (lift (unpack_B bs)) k) f = k b (advance 1 f).
Proof.
  intros Hf Hrem. erewrite bind_Ok; [|by apply (read_1_cons f b tl)]. done.
Qed.

Lemma seek_back (k : nat) (f : File) :
  seek_cur (-1) (advance (S k) f) = (Ok tt, advance k f).
Proof.
  unfold seek_cur, advance. simpl.
  rewrite bool_decide_eq_false_2 by lia. do 2 f_equal. lia.
Qed.

Lemma status_nibbles (st ch : Z) :
  st ∈ midi_keys -> 0 <= ch <= 15 ->
  Z.land (st + ch) 240 = st /\ Z.land (st + ch) 15 = ch.
Proof.
  intros Hst Hch. apply midi_keys_spec in Hst.
  assert (Hc : ch = 0 \/ ch = 1 \/ ch = 2 \/ ch = 3 \/ ch = 4 \/ ch = 5 \/
               ch = 6 \/ ch = 7 \/ ch = 8 \/ ch = 9 \/ ch = 10 \/ ch = 11 \/
               ch = 12 \/ ch = 13 \/ ch = 14 \/ ch = 15) by lia.
  clear Hch.
  repeat (destruct Hst as [-> | Hst]); try subst st;
    repeat (destruct Hc as [-> | Hc]); try subst ch; by vm_compute.
Qed.

(** The number of payload bytes the decoder reads for a status byte
    agrees with what the constructor asks for, Channel Pressure apart. *)
Lemma decoder_payload_length (st ch : Z) :
  st ∈ midi_keys -> st <> 208 -> 0 <= ch <= 15 ->
  (if bool_decide (192 <= st + ch <= 223) then 1 else 2) = required_len st.
Proof.
  intros Hst H208 Hch. apply midi_keys_spec in Hst. unfold required_len.
  repeat case_bool_decide; lia.
Qed.

Lemma read_midi_event_data_exact (s : Z) (f : File) (d tl : list Z) :
  closed f = false -> remaining f = d ++ tl ->
  len d = (if bool_decide (192 <= s <= 223) then 1 else 2) ->
  read_midi_event_data s f = (Ok d, advance (length d) f).
Proof.
  intros Hf Hrem Hlen. unfold read_midi_event_data.
  erewrite bind_Ok; [done|]. by apply (read_exact _ f d tl).
Qed.

Lemma mod_small_21 (n : Z) : 0 <= n < 2097152 -> n mod 2097152 = n.
Proof. intros. Z.to_euclidean_division_equations. lia. Qed.

(** A channel-voice event written in full is read back, whatever the
    previous event was. *)
Lemma read_event_full_MidiEvent
    (cur e : Event) (dt st ch : Z) (d tail : list Z) (f : File) :
  MidiEvent_init dt st ch d = Ok e -> st <> 208 -> dt < 2097152 ->
  closed f = false -> remaining f = wire e ++ tail ->
  read_event cur f = (Ok e, advance (length (wire e)) f).
Proof.
  intros Hinit H208 Hdt21 Hf Hrem.
  pose proof Hinit as (Hch & Hst & Hlen & Hd & Hdt & ->)%MidiEvent_init_Ok.
  unfold wire in *. cbn [event concat] in *. rewrite app_nil_r in *.
  rewrite <- !app_assoc in Hrem.
  destruct (status_nibbles st ch Hst Hch) as [Hhi Hlo].
  assert (Hrange : 128 <= st + ch <= 239) by (apply midi_keys_spec in Hst; lia).
  unfold read_event.
  erewrite bind_Ok; [|by apply (read_var_len_variable_len f dt _ Hf (proj1 Hdt) Hrem)].
  rewrite mod_small_21 by lia.
  set (f1 := advance (length (variable_len dt)) f).
  assert (Hrem1 : remaining f1 = [st + ch] ++ d ++ tail)
    by by (unfold f1; rewrite remaining_advance, Hrem, drop_app_length).
  rewrite (bind_read_byte _ f1 (st + ch) (d ++ tail)) by done.
  rewrite (bool_decide_eq_false_2 (st + ch < 128)) by lia.
  rewrite andb_false_r.
  assert (Hnot : list_in (st + ch) [240; 247; 255] = false).
  { unfold list_in. apply bool_decide_eq_false_2.
    rewrite !elem_of_cons, elem_of_nil. lia. }
  rewrite Hnot. cbn [negb].
  set (f2 := advance 1 f1).
  assert (Hrem2 : remaining f2 = d ++ tail)
    by by (unfold f2; rewrite remaining_advance, Hrem1).
  erewrite bind_Ok; cycle 1.
  { apply (read_midi_event_data_exact (st + ch) f2 d tail); [done|done|].
    by rewrite decoder_payload_length. }
  unfold lift. rewrite Hlo. replace (st + ch - ch) with st by lia.
  rewrite Hinit. f_equal. unfold f2, f1. rewrite !advance_advance.
  f_equal. rewrite !length_app. simpl. lia.
Qed.

(** A channel-voice event written without its status byte is read back
    when the previous event has its status and at least one more byte
    follows in the stream. *)
Lemma read_event_running_MidiEvent
    (cur e : Event) (dt st ch x : Z) (d tail : list Z) (f : File) :
  MidiEvent_init dt st ch d = Ok e -> st <> 208 -> dt < 2097152 ->
  status cur = status e ->
  closed f = false -> remaining f = (variable_len dt ++ d) ++ x :: tail ->
  read_event cur f = (Ok e, advance (length (variable_len dt ++ d)) f).
Proof.
  intros Hinit H208 Hdt21 Hcur Hf Hrem.
  pose proof Hinit as (Hch & Hst & Hlen & Hd & Hdt & ->)%MidiEvent_init_Ok.
  simpl in Hcur. rewrite <- !app_assoc in Hrem.
  destruct (status_nibbles st ch Hst Hch) as [Hhi Hlo].
  destruct d as [|d0 d']; [unfold len, required_len in Hlen; simpl in Hlen;
                           case_bool_decide; lia|].
  apply Forall_cons in Hd as [Hd0 _].
  unfold read_event.
  erewrite bind_Ok; [|by apply (read_var_len_variable_len f dt _ Hf (proj1 Hdt) Hrem)].
  rewrite mod_small_21 by lia.
  set (f1 := advance (length (variable_len dt)) f).
  assert (Hrem1 : remaining f1 = d0 :: d' ++ x :: tail)
    by by (unfold f1; rewrite remaining_advance, Hrem, drop_app_length).
  rewrite (bind_read_byte _ f1 d0 (d' ++ x :: tail)) by done.
  unfold status_of. rewrite Hcur, Hhi, Hlo.
  rewrite (proj2 (dict_in_midi st) Hst).
  rewrite (bool_decide_eq_true_2 (d0 < 128)) by lia. cbn [andb].
  set (f2 := advance 1 f1).
  assert (Hrem2 : remaining f2 = (d' ++ [x]) ++ tail)
    by by (unfold f2; rewrite remaining_advance, Hrem1, <- app_assoc).
  erewrite bind_Ok; cycle 1.
  { apply (read_midi_event_data_exact (st + ch) f2 (d' ++ [x]) tail); [done|done|].
    rewrite decoder_payload_length by done. rewrite <- Hlen.
    unfold len. rewrite length_app. simpl. lia. }
  rewrite removelast_last.
  rewrite length_app. simpl length. rewrite Nat.add_1_r.
  erewrite bind_Ok; [|apply seek_back].
  unfold lift. replace (st + ch - ch) with st by lia.
  rewrite Hinit. f_equal. unfold f2, f1. rewrite !advance_advance.
  f_equal. rewrite !length_app. simpl. lia.
Qed.

(** A Meta event written in full is read back. *)
Lemma read_event_full_MetaEvent
    (cur e : Event) (et dt : Z) (d tail : list Z) (f : File) :
  MetaEvent_init et dt d = Ok e -> dt < 2097152 -> len d < 2097152 ->
  closed f = false -> remaining f = wire e ++ tail ->
  read_event cur f = (Ok e, advance (length (wire e)) f).
Proof.
  intros Hinit Hdt21 Hlen21 Hf Hrem.
  pose proof Hinit as (Het & Hdt & ->)%MetaEvent_init_Ok.
  unfold wire in *. cbn [event concat] in *. rewrite app_nil_r in *.
  rewrite <- !app_assoc in Hrem.
  unfold read_event.
  erewrite bind_Ok; [|by apply (read_var_len_variable_len f dt _ Hf (proj1 Hdt) Hrem)].
  rewrite mod_small_21 by lia.
  set (f1 := advance (length (variable_len dt)) f).
  assert (Hrem1 : remaining f1 = [255] ++ [et] ++ variable_len (len d) ++ d ++ tail)
    by by (unfold f1; rewrite remaining_advance, Hrem, drop_app_length).
  rewrite (bind_read_byte _ f1 255 _ eq_refl Hrem1).
  rewrite (bool_decide_eq_false_2 (255 < 128)) by lia. rewrite andb_false_r.
  change (negb (list_in 255 [240; 247; 255])) with false. cbv iota.
  rewrite (bool_decide_eq_true_2 (255 = 255)) by done.
  set (f2 := advance 1 f1).
  assert (Hrem2 : remaining f2 = [et] ++ variable_len (len d) ++ d ++ tail)
    by by (unfold f2; rewrite remaining_advance, Hrem1).
  set (f3 := advance 1 f2).
  assert (Hrem3 : remaining f3 = variable_len (len d) ++ d ++ tail)
    by by (unfold f3; rewrite remaining_advance, Hrem2).
  set (f4 := advance (length (variable_len (len d))) f3).
  assert (Hrem4 : remaining f4 = d ++ tail)
    by by (unfold f4; rewrite remaining_advance, Hrem3, drop_app_length).
  assert (Hmeta : read_meta_event_data f2 =
                  (Ok (et, len d, d), advance (length d) f4)).
  { unfold read_meta_event_data.
    rewrite (bind_read_byte _ f2 et _ eq_refl Hrem2).
    erewrite bind_Ok; cycle 1.
    { apply (read_var_len_variable_len f3 (len d) (d ++ tail) eq_refl);
        [unfold len; lia | done]. }
    rewrite mod_small_21 by (unfold len in *; lia).
    erewrite bind_Ok; [done|]. by apply (read_exact _ f4 d tail). }
  erewrite bind_Ok; [|exact Hmeta]. unfold lift. rewrite Hinit. f_equal.
  unfold f4, f3, f2, f1. rewrite !advance_advance.
  f_equal. rewrite !length_app. simpl. lia.
Qed.

(** A SysEx event written in full is read back. *)
Lemma read_event_full_SysExEvent
    (cur e : Event) (dt st : Z) (d tail : list Z) (f : File) :
  SysExEvent_init dt st d = Ok e -> dt < 2097152 -> len d < 2097152 ->
  closed f = false -> remaining f = wire e ++ tail ->
  read_event cur f = (Ok e, advance (length (wire e)) f).
Proof.
  intros Hinit Hdt21 Hlen21 Hf Hrem.
  pose proof Hinit as (Hst & Hdt & ->)%SysExEvent_init_Ok.
  unfold wire in *. cbn [event concat] in *. rewrite app_nil_r in *.
  rewrite <- !app_assoc in Hrem.
  unfold read_event.
  erewrite bind_Ok; [|by apply (read_var_len_variable_len f dt _ Hf (proj1 Hdt) Hrem)].
  rewrite mod_small_21 by lia.
  set (f1 := advance (length (variable_len dt)) f).
  assert (Hrem1 : remaining f1 = [st] ++ variable_len (len d) ++ d ++ tail)
    by by (unfold f1; rewrite remaining_advance, Hrem, drop_app_length).
  rewrite (bind_read_byte _ f1 st _ eq_refl Hrem1).
  assert (Hst' : st = 240 \/ st = 247)
    by (rewrite !elem_of_cons, elem_of_nil in Hst; lia).
  rewrite (bool_decide_eq_false_2 (st < 128)) by lia. rewrite andb_false_r.
  assert (Hin : list_in st [240; 247; 255] = true).
  { unfold list_in. apply bool_decide_eq_true_2.
    rewrite !elem_of_cons, elem_of_nil. lia. }
  rewrite Hin. cbn [negb].
  rewrite (bool_decide_eq_false_2 (st = 255)) by lia.
  set (f2 := advance 1 f1).
  assert (Hrem2 : remaining f2 = variable_len (len d) ++ d ++ tail)
    by by (unfold f2; rewrite remaining_advance, Hrem1).
  set (f3 := advance (length (variable_len (len d))) f2).
  assert (Hrem3 : remaining f3 = d ++ tail)
    by by (unfold f3; rewrite remaining_advance, Hrem2, drop_app_length).
  assert (Hsysex : read_sysex_event_data f2 =
                   (Ok (len d, d), advance (length d) f3)).
  { unfold read_sysex_event_data.
    erewrite bind_Ok; cycle 1.
    { apply (read_var_len_variable_len f2 (len d) (d ++ tail) eq_refl);
        [unfold len; lia | done]. }
    rewrite mod_small_21 by (unfold len in *; lia).
    erewrite bind_Ok; [done|]. by apply (read_exact _ f3 d tail). }
  erewrite bind_Ok; [|exact Hsysex]. unfold lift. rewrite Hinit. f_equal.
  unfold f3, f2, f1. rewrite !advance_advance.
  f_equal. rewrite !length_app. simpl. lia.
Qed.

Lemma decodable_constructed (e : Event) : decodable e -> constructed e.
Proof.
  intros [(dt & st & ch & d & H & _) | [(dt & st & d & H & _) | (et & dt & d & H & _)]].
  - left. by exists dt, st, ch, d.
  - right. left. by exists dt, st, d.
  - right. right. left. by exists et, dt, d.
Qed.

Lemma length_variable_len (n : Z) : 0 <= n -> (1 <= length (variable_len n))%nat.
Proof. intros Hn. by apply variable_len_shape. Qed.

Lemma piece_nonempty (mode : bool) (prev e : Event) :
  constructed e -> (1 <= length (piece mode prev e))%nat.
Proof.
  intros He. destruct (constructed_shape e He) as (Hdt & _ & _ & Hshape).
  pose proof (length_variable_len (delta_time e) Hdt) as Hvl.
  unfold piece. destruct (mode && elides prev e) eqn:Hel.
  - rewrite length_app. lia.
  - destruct (decide (status e < 240)) as [Hlt|Hge].
    + destruct (wire_channel_voice e He Hlt) as [_ ->]. rewrite length_app. lia.
    + destruct He as [(dt & st & ch & d & H) | [(dt & st & d & H) |
                     [(et & dt & d & H) | (dt & st & d & H)]]].
      * apply MidiEvent_init_Ok in H as (? & ? & _ & _ & _ & ->).
        unfold wire. simpl in *. rewrite length_app. lia.
      * apply SysExEvent_init_Ok in H as (_ & _ & ->).
        unfold wire. simpl in *. rewrite length_app. lia.
      * apply MetaEvent_init_Ok in H as (_ & _ & ->).
        unfold wire. simpl in *. rewrite length_app. lia.
      * apply Event_init_Ok in H as (_ & ->).
        unfold wire. simpl in *. rewrite length_app. lia.
Qed.

Lemma length_pieces_ge (mode : bool) (evs : list Event) :
  forall prev, Forall constructed evs ->
  (length evs <= length (pieces mode prev evs))%nat.
Proof.
  induction evs as [|e evs IH]; intros prev Hc; simpl; [lia|].
  apply Forall_cons in Hc as [He Hc]. rewrite length_app.
  pose proof (piece_nonempty mode prev e He). specialize (IH e Hc). lia.
Qed.

Lemma is_end_of_track_MidiEvent (e : Event) :
  cls e = MidiEventCls -> is_end_of_track e = false.
Proof. intros H. unfold is_end_of_track. by rewrite H. Qed.

(** The decoder reads the piece of a decodable event back, given the
    event it was written after; a piece without status byte must be
    followed by at least one byte. *)
Lemma read_event_piece (mode : bool) (prev e : Event) (tail : list Z) (f : File) :
  decodable e -> closed f = false ->
  remaining f = piece mode prev e ++ tail ->
  (mode && elides prev e = true -> tail <> []) ->
  read_event prev f = (Ok e, advance (length (piece mode prev e)) f).
Proof.
  intros He Hf Hrem Htail. unfold piece in *.
  destruct (mode && elides prev e) eqn:Hel.
  - apply andb_true_iff in Hel as [_ Hel]. unfold elides in Hel.
    apply andb_true_iff in Hel as [Heq%bool_decide_eq_true Hlt%bool_decide_eq_true].
    destruct tail as [|x tail]; [by specialize (Htail eq_refl)|].
    destruct He as [(dt & st & ch & d & H & H208 & Hdt) | [(dt & st & d & H & _) |
                   (et & dt & d & H & _)]].
    + pose proof H as (_ & _ & _ & _ & _ & ->)%MidiEvent_init_Ok. simpl in *.
      by apply (read_event_running_MidiEvent prev _ dt st ch x d tail f).
    + apply SysExEvent_init_Ok in H as (Hst & _ & ->). simpl in Hlt.
      rewrite !elem_of_cons, elem_of_nil in Hst. lia.
    + apply MetaEvent_init_Ok in H as (_ & _ & ->). simpl in Hlt. lia.
  - destruct He as [(dt & st & ch & d & H & H208 & Hdt) | [(dt & st & d & H & Hdt & Hl) |
                   (et & dt & d & H & Hdt & Hl)]].
    + by apply (read_event_full_MidiEvent prev e dt st ch d tail f).
    + by apply (read_event_full_SysExEvent prev e dt st d tail f).
    + by apply (read_event_full_MetaEvent prev e et dt d tail f).
Qed.

Lemma elides_not_end (prev e : Event) :
  decodable e -> elides prev e = true -> is_end_of_track e = false.
Proof.
  intros He Hel. unfold elides in Hel.
  apply andb_true_iff in Hel as [_ Hlt%bool_decide_eq_true].
  destruct He as [(dt & st & ch & d & H & _) | [(dt & st & d & H & _) |
                 (et & dt & d & H & _)]].
  - apply MidiEvent_init_Ok in H as (_ & _ & _ & _ & _ & ->). done.
  - apply SysExEvent_init_Ok in H as (_ & _ & ->). done.
  - apply MetaEvent_init_Ok in H as (_ & _ & ->). simpl in Hlt. lia.
Qed.

(** The [while] loop of [__read_track] on the pieces of the events that
    follow [cur], up to the End of Track event. *)
Lemma read_events_pieces (mode : bool) (tail : list Z) (evs : list Event) :
  forall (cur : Event) (acc : list Event) (f : File) (fuel : nat),
  Forall decodable evs -> track_ends cur evs -> (length evs <= fuel)%nat ->
  closed f = false -> remaining f = pieces mode cur evs ++ tail ->
  read_events fuel cur acc f =
    (Ok (acc ++ evs), advance (length (pieces mode cur evs)) f).
Proof.
  induction evs as [|e evs IH]; intros cur acc f fuel Hd Hends Hfuel Hf Hrem.
  - simpl in *. destruct fuel; simpl; rewrite Hends; unfold ret;
      by rewrite app_nil_r, advance_0.
  - destruct Hends as [Hcur Hends]. apply Forall_cons in Hd as [He Hd].
    destruct fuel as [|fuel]; [simpl in Hfuel; lia|].
    cbn [read_events pieces] in *. rewrite Hcur.
    rewrite <- app_assoc in Hrem.
    erewrite bind_Ok; cycle 1.
    { apply (read_event_piece mode cur e _ f He Hf Hrem).
      intros Hel. apply andb_true_iff in Hel as [_ Hel].
      pose proof (elides_not_end cur e He Hel) as Hne.
      destruct evs as [|e' evs']; [simpl in Hends; congruence|].
      apply Forall_cons in Hd as [He' _].
      pose proof (piece_nonempty mode e e' (decodable_constructed e' He')) as Hp.
      simpl. intros Happ. apply (f_equal length) in Happ.
      rewrite !length_app in Happ. simpl in Happ. lia. }
    rewrite (IH e (acc ++ [e]) _ fuel Hd Hends); [| simpl in Hfuel; lia | done |].
    + rewrite <- app_assoc, advance_advance, length_app. done.
    + by rewrite remaining_advance, Hrem, drop_app_length.
Qed.

Lemma remaining_length (f : File) : (length (remaining f) <= length (content f))%nat.
Proof. unfold remaining. rewrite length_drop. lia. Qed.

(** [__read_track] on a chunk: eight bytes of prologue, then the event
    stream of a track in either mode. *)
Lemma read_track_track_wire
    (mode : bool) (e0 : Event) (rest : list Event) (p8 tail : list Z) (f : File) :
  Forall decodable (e0 :: rest) ->
  Forall (fun e => to_hex e = Ok (wire e)) (e0 :: rest) ->
  track_ends e0 rest -> length p8 = 8%nat ->
  closed f = false ->
  remaining f = p8 ++ track_wire mode (e0 :: rest) ++ tail ->
  read_track f =
    (Ok (mkTrack MTrk (e0 :: rest) true
           (len (track_wire true (e0 :: rest))) (track_wire true (e0 :: rest))),
     advance (8 + length (track_wire mode (e0 :: rest))) f).
Proof.
  intros Hd Hh Hends Hlen Hf Hrem.
  assert (Hc : Forall constructed (e0 :: rest))
    by (eapply Forall_impl; [exact Hd | apply decodable_constructed]).
  pose proof Hd as Hd'. apply Forall_cons in Hd' as [He0 Hrest].
  unfold read_track.
  erewrite bind_Ok; [|by apply (read_exact 8 f p8 _ Hf Hrem); unfold len; lia].
  rewrite bool_decide_eq_false_2 by (intros ->; done). cbn [negb].
  rewrite Hlen.
  set (f1 := advance 8 f).
  assert (Hrem1 : remaining f1 = wire e0 ++ pieces mode e0 rest ++ tail).
  { unfold f1. rewrite remaining_advance, Hrem, <- Hlen, drop_app_length.
    simpl. by rewrite <- app_assoc. }
  erewrite bind_Ok; [|reflexivity].
  erewrite bind_Ok; cycle 1.
  { apply (read_event_piece false _ e0 _ f1 He0 eq_refl Hrem1). done. }
  change (piece false _ e0) with (wire e0).
  set (f2 := advance (length (wire e0)) f1).
  assert (Hrem2 : remaining f2 = pieces mode e0 rest ++ tail)
    by by (unfold f2; rewrite remaining_advance, Hrem1, drop_app_length).
  erewrite bind_Ok; cycle 1.
  { apply (read_events_pieces mode tail rest e0 [e0] f2); try done.
    pose proof (remaining_length f2) as Hl. rewrite Hrem2, length_app in Hl.
    apply Forall_cons in Hc as [_ Hc].
    pose proof (length_pieces_ge mode rest e0 Hc). lia. }
  unfold Track_init. cbn [app].
  rewrite (length_and_bytes_track_wire true (e0 :: rest)) by done.
  cbn [bind lift rbind ret fst snd]. unfold bind, lift, ret. cbn [rbind fst snd].
  f_equal. unfold f2, f1. rewrite !advance_advance. f_equal.
  simpl. rewrite length_app. lia.
Qed.

(** X14.  The decoder inverts [to_hex] event by event: when the unread
    part of an open stream starts with the bytes [to_hex] returned for a
    decodable event, [__read_event] returns that event, whatever the
    previous event was, and leaves the position just behind its bytes. *)
Theorem read_event_inverts_to_hex
    (cur e : Event) (h tail : list Z) (f : File) :
  decodable e -> to_hex e = Ok h ->
  closed f = false -> remaining f = h ++ tail ->
  read_event cur f = (Ok e, advance (length h) f) /\
  remaining (advance (length h) f) = tail.
Proof.
  intros He Hh Hf Hrem. apply to_hex_wire in Hh as ->. split.
  - by apply (read_event_piece false cur e tail f).
  - by rewrite remaining_advance, Hrem, drop_app_length.
Qed.

Lemma read_event_inverts_to_hex_witness :
  read_event example_end_of_track
    (open_bytes [205; 193; 112; 153; 60; 127; 0; 255; 47; 0]) =
    (Ok example_note_on, mkFile [205; 193; 112; 153; 60; 127; 0; 255; 47; 0] 6 false).
Proof.
  assert (Hd : decodable example_note_on).
  { left. exists 1270000, 144, 9, [60; 127]. split; [reflexivity|]. lia. }
  exact (proj1 (read_event_inverts_to_hex example_end_of_track example_note_on
                  [205; 193; 112; 153; 60; 127] [0; 255; 47; 0]
                  (open_bytes [205; 193; 112; 153; 60; 127; 0; 255; 47; 0])
                  Hd eq_refl eq_refl eq_refl)).
Defined.

(** X15.  The decoder rebuilds a status byte that running status left
    out: after an event with the status [st + ch], the bytes
    VLQ(delta_time) and payload of a channel-voice event with that
    status, followed by at least one more byte, are read as that event,
    and the position is left just behind the payload. *)
Theorem read_event_running_status
    (prev e : Event) (dt st ch x : Z) (d tail : list Z) (f : File) :
  MidiEvent_init dt st ch d = Ok e -> st <> 208 -> dt < 2097152 ->
  status prev = st + ch ->
  closed f = false -> remaining f = variable_len dt ++ d ++ x :: tail ->
  read_event prev f = (Ok e, advance (length (variable_len dt) + length d) f).
Proof.
  intros Hinit H208 Hdt Hprev Hf Hrem.
  rewrite <- length_app.
  apply (read_event_running_MidiEvent prev e dt st ch x d tail f); try done.
  - apply MidiEvent_init_Ok in Hinit as (_ & _ & _ & _ & _ & ->). done.
  - by rewrite <- app_assoc.
Qed.

Lemma read_event_running_status_witness :
  read_event example_note_on (open_bytes [127; 60; 0; 0; 255; 47; 0]) =
    (Ok example_note_on_again, mkFile [127; 60; 0; 0; 255; 47; 0] 3 false).
Proof.
  assert (H208 : 144 <> 208) by lia.
  assert (Hdt : 127 < 2097152) by lia.
  exact (read_event_running_status example_note_on example_note_on_again
           127 144 9 0 [60; 0] [255; 47; 0] (open_bytes [127; 60; 0; 0; 255; 47; 0])
           eq_refl H208 Hdt eq_refl eq_refl eq_refl).
Defined.

Lemma read_open (size : Z) (f : File) :
  closed f = false -> 0 <= size ->
  read size f =
    (Ok (take (Z.to_nat size) (remaining f)),
     advance (length (take (Z.to_nat size) (remaining f))) f).
Proof.
  intros Hf Hsize. unfold read, remaining, advance. rewrite Hf.
  by rewrite bool_decide_eq_false_2 by lia.
Qed.



(** X17.  Every event [__read_event] returns has cost at least one byte
    of the stream, whose content is left as it was: the [while] loop of
    [__read_track] cannot go round for ever on a finite stream. *)
Theorem read_event_progress (cur e : Event) (f f' : File) :
  read_event cur f = (Ok e, f') ->
  content f' = content f /\ unread f' + 1 <= unread f.
Proof.
  intros Hread. destruct (consumes_read_event cur f) as [_ Hok].
  rewrite Hread in Hok. exact (Hok e eq_refl).
Qed.

Lemma read_event_progress_witness :
  unread (mkFile [127; 60; 0; 0; 255; 47; 0] 3 false) + 1 <=
  unread (open_bytes [127; 60; 0; 0; 255; 47; 0]).
Proof.
  exact (proj2 (read_event_progress example_note_on example_note_on_again
                  (open_bytes [127; 60; 0; 0; 255; 47; 0])
                  (mkFile [127; 60; 0; 0; 255; 47; 0] 3 false) eq_refl)).
Defined.

(** [__read_track] on the chunk [Track.to_hex] wrote. *)
Lemma read_track_chunk
    (mode : bool) (e0 : Event) (rest : list Event) (t : Track)
    (h tail : list Z) (f : File) :
  Forall decodable (e0 :: rest) ->
  Forall (fun e => is_ok (to_hex e)) (e0 :: rest) ->
  track_ends e0 rest ->
  Track_init (e0 :: rest) mode = Ok t -> Track_to_hex t = Ok h ->
  closed f = false -> remaining f = h ++ tail ->
  read_track f = (Ok (decoded_track t), advance (length h) f) /\
  events (decoded_track t) = e0 :: rest /\
  Track_init (e0 :: rest) true = Ok (decoded_track t).
Proof.
  intros Hd Hok Hends Ht Hh Hf Hrem.
  assert (Hw : Forall (fun e => to_hex e = Ok (wire e)) (e0 :: rest)).
  { eapply Forall_impl; [exact Hok|]. intros e [x He]. simpl.
    by rewrite He, (to_hex_wire e x He). }
  assert (Hc : Forall constructed (e0 :: rest))
    by (eapply Forall_impl; [exact Hd | apply decodable_constructed]).
  unfold Track_init in Ht.
  rewrite (length_and_bytes_track_wire mode (e0 :: rest)) in Ht by done.
  cbn [rbind fst snd] in Ht.
  assert (t = mkTrack MTrk (e0 :: rest) mode (len (track_wire mode (e0 :: rest)))
                (track_wire mode (e0 :: rest))) as -> by congruence.
  clear Ht. unfold decoded_track. cbn [events].
  unfold Track_to_hex, pack_L in Hh. cbn [trk_length trk_header trk_bytes] in Hh.
  case_bool_decide; cbn [rbind] in Hh; [|done].
  set (p8 := MTrk ++ be_bytes 4 (len (track_wire mode (e0 :: rest)))).
  assert (h = p8 ++ track_wire mode (e0 :: rest)) as ->
    by (unfold p8; rewrite <- app_assoc; congruence).
  clear Hh. split; [|split; [done|]].
  - rewrite <- app_assoc in Hrem.
    rewrite (read_track_track_wire mode e0 rest p8 tail f Hd Hw Hends eq_refl Hf Hrem).
    by rewrite length_app.
  - unfold Track_init.
    by rewrite (length_and_bytes_track_wire true (e0 :: rest)).
Qed.

(** X18.  The decoder inverts [Track.to_hex]: for a track of decodable
    events that serialise, ends with the End of Track event and holds no
    other one, written in either mode, [__read_track] on a stream that
    continues with the chunk returns the track [Track(events)] of the
    same events and leaves the position just behind the chunk. *)
Theorem read_track_inverts_to_hex
    (mode : bool) (e0 : Event) (rest : list Event) (t : Track)
    (h tail : list Z) (f : File) :
  Forall decodable (e0 :: rest) ->
  Forall (fun e => is_ok (to_hex e)) (e0 :: rest) ->
  track_ends e0 rest ->
  Track_init (e0 :: rest) mode = Ok t -> Track_to_hex t = Ok h ->
  closed f = false -> remaining f = h ++ tail ->
  read_track f = (Ok (decoded_track t), advance (length h) f) /\
  events (decoded_track t) = e0 :: rest /\
  Track_init (e0 :: rest) true = Ok (decoded_track t).
Proof. apply read_track_chunk. Qed.

Lemma read_track_inverts_to_hex_witness :
  read_track (open_bytes example_track_wire) =
    (Ok example_track, mkFile example_track_wire 22 false).
Proof.
  assert (Hd : Forall decodable example_events).
  { constructor; [left; exists 1270000, 144, 9, [60; 127];
                  split; [reflexivity | lia]|].
    constructor; [left; exists 127, 128, 9, [60; 0]; split; [reflexivity | lia]|].
    constructor; [|constructor].
    right. right. exists 47, 0, []. split; [reflexivity|]. unfold len. simpl. lia. }
  assert (Hok : Forall (fun e => is_ok (to_hex e)) example_events).
  { constructor; [by eexists|]. constructor; [by eexists|].
    constructor; [by eexists|]. constructor. }
  assert (Hends : track_ends example_note_on [example_note_off; example_end_of_track]).
  { simpl. repeat split. }
  exact (proj1 (read_track_inverts_to_hex true example_note_on
                  [example_note_off; example_end_of_track] example_track
                  example_track_wire [] (open_bytes example_track_wire)
                  Hd Hok Hends eq_refl eq_refl eq_refl eq_refl)).
Defined.

(** ** Decoding a whole file *)

Lemma rmap_Ok_cons {A B} (g : A -> result B) (x : A) (l : list A) (ys : list B) :
  rmap g (x :: l) = Ok ys ->
  exists y ys', g x = Ok y /\ rmap g l = Ok ys' /\ ys = y :: ys'.
Proof.
  simpl. destruct (g x) as [y| |]; simpl; [|done..].
  destruct (rmap g l) as [ys'| |]; simpl; [|done..].
  intros [= <-]. by exists y, ys'.
Qed.

(** The loop of [read_all] on the chunks of decodable tracks. *)
Lemma read_tracks_chunks (tail : list Z) (ts : list Track) :
  forall (acc : list Track) (hs : list (list Z)) (f : File),
  Forall decodable_track ts -> rmap Track_to_hex ts = Ok hs ->
  closed f = false -> remaining f = concat hs ++ tail ->
  read_tracks (length ts) acc f =
    (Ok (acc ++ map decoded_track ts), advance (length (concat hs)) f).
Proof.
  induction ts as [|t ts IH]; intros acc hs f Hd Hhs Hf Hrem.
  - simpl in Hhs. injection Hhs as <-. simpl. unfold ret.
    by rewrite app_nil_r, advance_0.
  - apply rmap_Ok_cons in Hhs as (h & hs' & Hh & Hhs' & ->).
    apply Forall_cons in Hd as [(e0 & rest & mode & Ht & Hdec & Hok & Hends & _) Hd].
    simpl concat in *. rewrite <- app_assoc in Hrem.
    destruct (read_track_chunk mode e0 rest t h _ f Hdec Hok Hends Ht Hh Hf Hrem)
      as (Hread & _ & _).
    cbn [length read_tracks]. erewrite bind_Ok; [|exact Hread].
    rewrite (IH (acc ++ [decoded_track t]) hs' (advance (length h) f) Hd Hhs' eq_refl).
    + rewrite advance_advance, length_app, <- app_assoc. done.
    + by rewrite remaining_advance, Hrem, drop_app_length.
Qed.

Lemma decoded_track_events (ts : list Track) :
  map events (map decoded_track ts) = map events ts.
Proof. induction ts as [|t ts IH]; simpl; [done | by rewrite IH]. Qed.


(** [read_all] on a stream made of an accepted prologue, the field bytes
    of a header and the chunks of decodable tracks, up to the point where
    the tracks have been read. *)
Lemma read_header_and_tracks
    (ff nt pq : Z) (h : Header) (ts : list Track) (hb p8 tail : list Z)
    (hs : list (list Z)) :
  Header_init ff nt pq = Ok h -> Forall decodable_track ts ->
  Header_to_hex h = Ok hb -> rmap Track_to_hex ts = Ok hs ->
  length p8 = 8%nat -> take 4 p8 <> MThd ->
  let s := p8 ++ drop 8 (hb ++ concat hs) ++ tail in
  read_header (open_bytes s) = (Ok h, mkFile s 14 false) /\
  read_tracks (length ts) [] (mkFile s 14 false) =
    (Ok (map decoded_track ts), mkFile s (length (hb ++ concat hs)) false) /\
  remaining (mkFile s (length (hb ++ concat hs)) false) = tail.
Proof.
  intros Hh Hd Hhb Hhs Hlen Hmagic s.
  destruct (Header_to_hex_MThd ff nt pq h hb Hh Hhb) as (params & -> & Hpar).
  assert (Hs : s = p8 ++ drop 8 (MThd ++ params) ++ concat hs ++ tail).
  { unfold s. rewrite drop_app_le, <- app_assoc; [done|].
    rewrite length_app. simpl. lia. }
  assert (Hs14 : (length p8 + length (drop 8 (MThd ++ params)) = 14)%nat).
  { rewrite length_drop, length_app, Hlen, Hpar. simpl. lia. }
  assert (Hrem1 : remaining (mkFile s 14 false) = concat hs ++ tail).
  { unfold remaining. cbn [pos content]. rewrite Hs.
    rewrite app_assoc, <- Hs14, <- length_app. by rewrite drop_app_length. }
  split; [|split].
  - rewrite Hs.
    apply (read_header_fields ff nt pq h (MThd ++ params) p8 (concat hs ++ tail)
             Hh Hhb Hlen Hmagic).
  - rewrite (read_tracks_chunks tail ts [] hs (mkFile s 14 false) Hd Hhs eq_refl Hrem1).
    unfold advance. cbn [app content pos]. do 2 f_equal.
    rewrite !length_app, Hpar. simpl. lia.
  - unfold remaining in *. cbn [pos content] in *.
    replace (length ((MThd ++ params) ++ concat hs))
      with (14 + length (concat hs))%nat
      by (rewrite !length_app, Hpar; simpl; lia).
    by rewrite <- drop_drop, Hrem1, drop_app_length.
Qed.

(** X19.  Apart from the magic, the decoder inverts the encoder.  Take a
    container whose header announces as many tracks as it holds and whose
    tracks are decodable, in either running-status mode; overwrite the
    first eight bytes of [MidiFormat.to_hex] by eight bytes that do not
    start with "MThd" (the prologue [__read_header] accepts) and append
    any bytes.  Then [read_all] returns a container with the same header
    and, track by track, the same events; it stops behind the last
    announced track, ignores what follows, and closes the stream. *)
Theorem read_all_inverts_to_hex_behind_other_magic
    (ff pq : Z) (h : Header) (ts : list Track) (c : MidiFormat)
    (bs p8 tail : list Z) :
  Header_init ff (len ts) pq = Ok h ->
  Forall decodable_track ts ->
  MidiFormat_init (Some h) ts = Ok c -> MidiFormat_to_hex c = Ok bs ->
  length p8 = 8%nat -> take 4 p8 <> MThd ->
  read_all (open_bytes (p8 ++ drop 8 bs ++ tail)) =
    (Ok (mkMidiFormat h (map decoded_track ts)),
     mkFile (p8 ++ drop 8 bs ++ tail) (length bs) true) /\
  map events (map decoded_track ts) = map events ts.
Proof.
  intros Hh Hd Hc Hbs Hlen Hmagic. split; [|apply decoded_track_events].
  assert (c = mkMidiFormat h ts) as ->.
  { unfold MidiFormat_init in Hc. destruct ts; [done|]. congruence. }
  unfold MidiFormat_to_hex in Hbs. cbn [header tracks] in Hbs.
  destruct (Header_to_hex h) as [hb| |] eqn:Hhb; cbn [rbind] in Hbs; [|done..].
  destruct (rmap Track_to_hex ts) as [hs| |] eqn:Hhs; cbn [rbind] in Hbs; [|done..].
  assert (bs = hb ++ concat hs) as -> by congruence. clear Hbs.
  destruct (read_header_and_tracks ff (len ts) pq h ts hb p8 tail hs
              Hh Hd Hhb Hhs Hlen Hmagic) as (Hread & Htracks & _).
  cbv zeta in Hread, Htracks.
  assert (Hnt : Z.to_nat (ntracks h) = length ts).
  { apply Header_init_Ok in Hh as ->. unfold len. simpl. lia. }
  unfold read_all. erewrite bind_Ok; [|exact Hread]. rewrite Hnt.
  erewrite bind_Ok; [|exact Htracks].
  unfold MidiFormat_init.
  destruct (map decoded_track ts) as [|t' ts'] eqn:Hmap.
  { destruct ts; [done | discriminate Hmap]. }
  reflexivity.
Qed.

Lemma read_all_inverts_to_hex_behind_other_magic_witness :
  read_all (open_bytes ([88; 88; 88; 88; 0; 0; 0; 6] ++ drop 8 example_file ++ [1; 2])) =
    (Ok (mkMidiFormat (mkHeader MThd 6 0 1 96) [example_track]),
     mkFile ([88; 88; 88; 88; 0; 0; 0; 6] ++ drop 8 example_file ++ [1; 2]) 36 true).
Proof.
  assert (Hd : Forall decodable_track [example_track]).
  { constructor; [|constructor].
    exists example_note_on, [example_note_off; example_end_of_track], true.
    split; [reflexivity|]. split; [|split; [|split]].
    - constructor; [left; exists 1270000, 144, 9, [60; 127];
                    split; [reflexivity | lia]|].
      constructor; [left; exists 127, 128, 9, [60; 0]; split; [reflexivity | lia]|].
      constructor; [|constructor].
      right. right. exists 47, 0, []. split; [reflexivity|]. unfold len. simpl. lia.
    - constructor; [by eexists|]. constructor; [by eexists|].
      constructor; [by eexists|]. constructor.
    - simpl. repeat split.
    - simpl. lia. }
  assert (Hmagic : take 4 [88; 88; 88; 88; 0; 0; 0; 6] <> MThd) by discriminate.
  exact (proj1 (read_all_inverts_to_hex_behind_other_magic 0 96
                  (mkHeader MThd 6 0 1 96) [example_track]
                  (mkMidiFormat (mkHeader MThd 6 0 1 96) [example_track])
                  example_file [88; 88; 88; 88; 0; 0; 0; 6] [1; 2]
                  eq_refl Hd eq_refl eq_refl eq_refl Hmagic)).
Defined.



(** X21.  A header that announces no track: behind an accepted prologue,
    format 1 or 2 with a track count of 0 is a valid header, no track is
    read, and [read_all] raises [MidiError] from [MidiFormat.__init__]
    ("Tracks list is empty"), leaving the stream open behind the header. *)
Theorem read_all_zero_tracks (p8 tail : list Z) (fmt c1 c0 : Z) :
  length p8 = 8%nat -> take 4 p8 <> MThd -> fmt = 1 \/ fmt = 2 ->
  read_all (open_bytes (p8 ++ [0; fmt; 0; 0; c1; c0] ++ tail)) =
    (Raise (MidiError "Tracks list is empty"),
     mkFile (p8 ++ [0; fmt; 0; 0; c1; c0] ++ tail) 14 false).
Proof.
  intros Hlen Hmagic Hfmt.
  pose proof (read_header_not_MThd p8 tail 0 fmt 0 0 c1 c0 Hlen Hmagic) as Hread.
  cbv zeta in Hread.
  assert (Hh : Header_init (0 * 256 + fmt) (0 * 256 + 0) (c1 * 256 + c0) =
               Ok (mkHeader MThd 6 fmt 0 (c1 * 256 + c0))).
  { destruct Hfmt as [-> | ->]; reflexivity. }
  rewrite Hh in Hread. unfold read_all.
  erewrite bind_Ok; [|exact Hread]. reflexivity.
Qed.

Lemma read_all_zero_tracks_witness :
  read_all (open_bytes [88; 88; 88; 88; 0; 0; 0; 6; 0; 1; 0; 0; 0; 96]) =
    (Raise (MidiError "Tracks list is empty"),
     mkFile [88; 88; 88; 88; 0; 0; 0; 6; 0; 1; 0; 0; 0; 96] 14 false).
Proof.
  assert (Hmagic : take 4 [88; 88; 88; 88; 0; 0; 0; 6] <> MThd) by discriminate.
  assert (Hfmt : 1 = 1 \/ 1 = 2) by (left; reflexivity).
  exact (read_all_zero_tracks [88; 88; 88; 88; 0; 0; 0; 6] [] 1 0 96
           eq_refl Hmagic Hfmt).
Defined.

(** X22.  A truncated track chunk: at the end of the stream
    [__read_track] raises [ValueError("Wrong format of file")]; when one
    to eight bytes are left, they are taken for the chunk's prologue,
    whatever they are, and reading the first delta time raises
    [struct.error]. *)
Theorem read_track_truncated (f : File) :
  closed f = false ->
  (remaining f = [] ->
     (read_track f).1 = Raise (ValueError "Wrong format of file")) /\
  (remaining f <> [] -> (length (remaining f) <= 8)%nat ->
     (read_track f).1 = Raise StructError).
Proof.
  intros Hf. split.
  - intros Hrem. unfold read_track.
    erewrite bind_Ok; [|by apply read_open]. rewrite Hrem. done.
  - intros Hne Hlen. unfold read_track.
    erewrite bind_Ok; [|by apply read_open].
    change (Z.to_nat 8) with 8%nat. rewrite take_ge by done.
    rewrite bool_decide_eq_false_2 by done. cbn [negb].
    erewrite bind_Ok; [|reflexivity].
    set (f1 := advance (length (remaining f)) f).
    assert (Hrem1 : remaining f1 = [])
      by (unfold f1; rewrite remaining_advance; by apply drop_ge).
    destruct (read_var_len_loop_spec [] [] (Forall_nil_2 _) 4 [] f1 eq_refl)
      as (_ & _ & H3).
    unfold read_event, read_var_len.
    erewrite bind_Raise; [done|].
    erewrite bind_Raise; [done|].
    erewrite bind_Raise; [done|]. apply H3; [simpl; lia | done].
Qed.

Lemma read_track_truncated_witness :
  (read_track (open_bytes [])).1 = Raise (ValueError "Wrong format of file") /\
  (read_track (open_bytes MTrk)).1 = Raise StructError.
Proof.
  split.
  - exact (proj1 (read_track_truncated (open_bytes []) eq_refl) eq_refl).
  - apply (proj2 (read_track_truncated (open_bytes MTrk) eq_refl));
      [discriminate | simpl; lia].
Defined.

(** ** The note table of [play.py] *)

Lemma generate_note_table_keys :
  forallb (fun i => bool_decide (generate_note_table !! note_name i = Some (Z.of_nat i)))
    (seq 0 128) = true.
Proof. vm_compute. reflexivity. Qed.

Lemma generate_note_table_values :
  bool_decide
    (map_Forall (fun name v => 0 <= v <= 127 /\ name = note_name (Z.to_nat v))
       generate_note_table) = true.
Proof. vm_compute. reflexivity. Qed.

(** X23.  [generate_note_table] names the 128 MIDI notes without a
    clash: the name built for the index [i] below 128 is mapped to [i],
    and every entry of the table is such a name with its index, a number
    from 0 to 127.  So every value of the table is a payload
    [MidiEvent.__init__] accepts, as in the Note On events that
    [play_notes] builds from it, and a name that is not in the table
    (a [KeyError]) is not the name of a note. *)
Theorem generate_note_table_spec :
  (forall i, (i < 128)%nat ->
     generate_note_table !! note_name i = Some (Z.of_nat i)) /\
  (forall name v, generate_note_table !! name = Some v ->
     0 <= v <= 127 /\ name = note_name (Z.to_nat v) /\
     is_ok (MidiEvent_init 0 144 0 [v; 127])) /\
  (forall name, generate_note_table !! name = None ->
     forall i, (i < 128)%nat -> name <> note_name i) /\
  size generate_note_table = 128%nat.
Proof.
  assert (Hkeys : forall i, (i < 128)%nat ->
            generate_note_table !! note_name i = Some (Z.of_nat i)).
  { intros i Hi. pose proof generate_note_table_keys as H.
    rewrite forallb_forall in H.
    specialize (H i). rewrite bool_decide_eq_true in H. apply H.
    apply in_seq. lia. }
  split; [exact Hkeys|]. split; [|split].
  - intros name v Hv.
    pose proof generate_note_table_values as H. apply bool_decide_eq_true in H.
    destruct (H name v Hv) as [Hrange Hname]. split; [done|]. split; [done|].
    eexists. apply MidiEvent_init_Ok.
    split; [lia|]. split; [apply midi_keys_spec; lia|]. split; [done|].
    split; [repeat constructor; lia|]. split; [lia | done].
  - intros name Hnone i Hi ->. rewrite Hkeys in Hnone by done. done.
  - vm_compute. reflexivity.
Qed.

Lemma generate_note_table_spec_witness :
  generate_note_table !! "A4"%string = Some 57 /\
  is_ok (MidiEvent_init 0 144 0 [57; 127]).
Proof.
  assert (Hi : (57 < 128)%nat) by lia.
  pose proof (proj1 generate_note_table_spec 57%nat Hi) as Hk.
  split; [exact Hk|].
  exact (proj2 (proj2 (proj1 (proj2 generate_note_table_spec) "A4"%string 57 Hk))).
Defined.
